(** * tukit: the command-line driver of transactional-update

    A shallow embedding of [tukit/tukit.cpp]: option parsing, command
    dispatch ([TUKit::processCommand]), the single-instance [Lock] and the
    constructor [TUKit::TUKit] that ties them together.

    The driver is stateful and throws C++ exceptions, so the embedding is a
    small state-and-exception monad.  Every system call and every call into
    the [Transaction] object is recorded in a trace, which is what the
    theorems at the end talk about. *)

From Stdlib Require Import ZArith String Ascii List Lia.
From stdpp Require Import base option list gmap strings pretty.

Local Open Scope Z_scope.
Local Open Scope string_scope.

(** ** Exceptions, results and the monad *)

(** What the C++ code can throw.  [invalid_argument], [runtime_error] and
    [logic_error] are the standard library's; [thrown_int] is the
    [throw ret] of the constructor; the remaining ones are the error kinds
    of the transaction engine. *)
Inductive Exn : Type :=
| invalid_argument (msg : string)
| runtime_error (msg : string)
| logic_error (msg : string)
| thrown_int (n : Z)
| SnapshotCreationError
| UnknownTransactionError (id : string)
| FinalizeError
| ProcessRunnerError
| PreconditionError (op : string).

Inductive Result (A : Type) : Type :=
| Ok (a : A)
| Throw (e : Exn).
Arguments Ok {A} a.
Arguments Throw {A} e.

Definition M (S A : Type) : Type := S -> Result A * S.

Definition ret {S A} (a : A) : M S A := fun s => (Ok a, s).
Definition throw {S A} (e : Exn) : M S A := fun s => (Throw e, s).
Definition bind {S A B} (m : M S A) (k : A -> M S B) : M S B :=
  fun s => match m s with
           | (Ok a, s') => k a s'
           | (Throw e, s') => (Throw e, s')
           end.
Definition modify {S} (f : S -> S) : M S unit := fun s => (Ok tt, f s).
Definition gets {S A} (f : S -> A) : M S A := fun s => (Ok (f s), s).

(** Runs [d] after [m] on every exit path of [m], normal or exceptional:
    the destructor of a local object.  [d] itself does not throw. *)
Definition finally {S A} (m : M S A) (d : S -> S) : M S A :=
  fun s => let (r, s') := m s in (r, d s').

Declare Scope tukit_scope.
Delimit Scope tukit_scope with tukit.
Notation "x <- m ;; k" := (bind m (fun x => k))
  (at level 100, m at next level, right associativity, only parsing)
  : tukit_scope.
Notation "m ;; k" := (bind m (fun _ => k))
  (at level 100, right associativity, only parsing) : tukit_scope.
Local Open Scope tukit_scope.

(** ** The process and its surroundings *)

Inductive Signal : Type := SIGHUP | SIGINT | SIGQUIT | SIGPIPE | SIGTERM.

Definition signum (s : Signal) : Z :=
  match s with
  | SIGHUP => 1 | SIGINT => 2 | SIGQUIT => 3 | SIGPIPE => 13 | SIGTERM => 15
  end.

(** What a signal does to the process: the default action of all five
    signals above is to terminate it. *)
Inductive Disposition : Type := SIG_DFL | Handler_interrupt.

Inductive TULogLevel : Type := ERROR | INFO | DEBUG.

(** What the process runner is asked to start: the given command, or an
    interactive login shell when no command was given. *)
Inductive Program : Type :=
| LoginShell
| Command (argv : list string).

Inductive Event : Type :=
(* system calls of tukit.cpp *)
| EvSignal (s : Signal)
| EvOpenLockfile (ok : bool)
| EvLockf (ok : bool)
| EvCloseLockfile
| EvRemoveLockfile
(* calls of the driver into its Transaction object *)
| CallInit (base : string)
| CallResume (id : string)
| CallExecute (argv : list string)
| CallCallExt (argv : list string)
| CallFinalize
| CallKeep
| CallGetSnapshot
| Dispose
(* what the Transaction asks of the snapshot store and the process runner *)
| StoreCreate (base : string) (result : option string)
| StoreMountPathOf (id : string) (ok : bool)
| StoreSetDefault (id : string) (ok : bool)
| StoreDelete (id : string)
| RunChroot (root : string) (p : Program)
| RunHost (p : Program).

Definition is_snapshot_op (e : Event) : bool :=
  match e with
  | StoreCreate _ _ | StoreMountPathOf _ _ | StoreSetDefault _ _
  | StoreDelete _ => true
  | _ => false
  end.

Definition is_transaction_event (e : Event) : bool :=
  match e with
  | EvSignal _ | EvOpenLockfile _ | EvLockf _ | EvCloseLockfile
  | EvRemoveLockfile => false
  | _ => true
  end.

(** The snapshots of the store: one still belonging to an open transaction,
    or a regular one (among them every snapshot that was made the default). *)
Inductive SnapStatus : Type := InProgress | Regular.

(** Everything the run can change. [baseSnapshot] is the member of the one
    [TUKit] object of the process, [tulog_level] is [tulog.level]. *)
Record World : Type := mkWorld {
  snaps : gmap string SnapStatus;
  default_snapshot : string;
  lockfile_exists : bool;
  lock_owned : bool;
  sigtable : list (Signal * Disposition);
  baseSnapshot : string;
  tulog_level : TULogLevel;
  log : list (TULogLevel * string);
  stdout : list string;
  trace : list Event
}.

(** Everything the run only reads: configuration, build constants and the
    answers of the outside world. *)
Record Env : Type := mkEnv {
  LOCKFILE : string;
  VERSION : string;
  open_ok : bool;
  lock_held_by_other : bool;
  strerror_errno : string;
  new_snapshot : option string;
  mount_path : string -> string;
  setDefault_ok : bool;
  child_status : option Z
}.

Definition emit (e : Event) (w : World) : World :=
  mkWorld (snaps w) (default_snapshot w) (lockfile_exists w) (lock_owned w)
    (sigtable w) (baseSnapshot w) (tulog_level w) (log w) (stdout w)
    (trace w ++ [e]).

Definition set_snaps (m : gmap string SnapStatus) (w : World) : World :=
  mkWorld m (default_snapshot w) (lockfile_exists w) (lock_owned w)
    (sigtable w) (baseSnapshot w) (tulog_level w) (log w) (stdout w) (trace w).

Definition set_default_snapshot (d : string) (w : World) : World :=
  mkWorld (snaps w) d (lockfile_exists w) (lock_owned w)
    (sigtable w) (baseSnapshot w) (tulog_level w) (log w) (stdout w) (trace w).

Definition set_lockfile (present owned : bool) (w : World) : World :=
  mkWorld (snaps w) (default_snapshot w) present owned
    (sigtable w) (baseSnapshot w) (tulog_level w) (log w) (stdout w) (trace w).

Definition set_sigtable (t : list (Signal * Disposition)) (w : World) : World :=
  mkWorld (snaps w) (default_snapshot w) (lockfile_exists w) (lock_owned w)
    t (baseSnapshot w) (tulog_level w) (log w) (stdout w) (trace w).

Definition set_baseSnapshot (b : string) (w : World) : World :=
  mkWorld (snaps w) (default_snapshot w) (lockfile_exists w) (lock_owned w)
    (sigtable w) b (tulog_level w) (log w) (stdout w) (trace w).

Definition set_tulog_level (l : TULogLevel) (w : World) : World :=
  mkWorld (snaps w) (default_snapshot w) (lockfile_exists w) (lock_owned w)
    (sigtable w) (baseSnapshot w) l (log w) (stdout w) (trace w).

Definition add_log (l : TULogLevel) (msg : string) (w : World) : World :=
  mkWorld (snaps w) (default_snapshot w) (lockfile_exists w) (lock_owned w)
    (sigtable w) (baseSnapshot w) (tulog_level w) (log w ++ [(l, msg)])
    (stdout w) (trace w).

Definition add_stdout (text : string) (w : World) : World :=
  mkWorld (snaps w) (default_snapshot w) (lockfile_exists w) (lock_owned w)
    (sigtable w) (baseSnapshot w) (tulog_level w) (log w)
    (stdout w ++ [text]) (trace w).

(** [std::to_string] on an [int]. *)
Definition to_string (n : Z) : string := pretty n.

(** ** The transaction engine

    [Transaction.hpp] and the snapshot backend are not among the sources
    (only their caller is), so this part follows the specification. *)

Inductive TxState : Type := Uninitialized | Open | Finalized | Discarded.

(** Modelled from the spec: the [Transaction] entity of the data model
    (section 3), whose class is declared in the missing [Transaction.hpp]. *)
Record Transaction : Type := mkTransaction {
  tx_id : option string;
  tx_state : TxState;
  tx_basis : string;
  tx_mountPath : string;
  tx_retain : bool
}.

(** Modelled from the spec: the default-constructed [Transaction] of
    [Transaction transaction{}], in state Uninitialized with no id. *)
Definition Transaction_new : Transaction :=
  mkTransaction None Uninitialized "default" EmptyString false.

(** Computations of [processCommand]: its local [transaction] and the
    world. *)
Definition TxM (A : Type) : Type := M (Transaction * World) A.

Definition in_world (f : World -> World) : TxM unit :=
  modify (fun s => (fst s, f (snd s))).
Definition set_tx (t : Transaction) : TxM unit :=
  modify (fun s => (t, snd s)).
Definition the_tx : TxM Transaction := gets fst.
Definition the_world : TxM World := gets snd.

Section Engine.
Context (env : Env).

(** Modelled from the spec: SnapshotStore.createSnapshot(base), absent
    from the sources.  The backend either cannot create a snapshot or
    answers with a new identifier and the path it is mounted at. *)
Definition createSnapshot (base : string) : TxM (string * string) :=
  w <- the_world ;;
  match new_snapshot env with
  | Some id =>
      match snaps w !! id with
      | None =>
          in_world (fun w => emit (StoreCreate base (Some id))
                               (set_snaps (<[id := InProgress]> (snaps w)) w)) ;;
          ret (id, mount_path env id)
      | Some _ =>
          in_world (emit (StoreCreate base None)) ;;
          throw SnapshotCreationError
      end
  | None =>
      in_world (emit (StoreCreate base None)) ;;
      throw SnapshotCreationError
  end.

(** Modelled from the spec: SnapshotStore.mountPathOf(id), absent from the
    sources; it resolves only an existing, not yet finalized snapshot. *)
Definition mountPathOf (id : string) : TxM string :=
  w <- the_world ;;
  match snaps w !! id with
  | Some InProgress =>
      in_world (emit (StoreMountPathOf id true)) ;;
      ret (mount_path env id)
  | _ =>
      in_world (emit (StoreMountPathOf id false)) ;;
      throw (UnknownTransactionError id)
  end.

(** Modelled from the spec: SnapshotStore.setDefault(id), absent from the
    sources.  A promoted snapshot is a regular one from then on. *)
Definition setDefault (id : string) : TxM unit :=
  if setDefault_ok env then
    in_world (fun w => emit (StoreSetDefault id true)
                         (set_default_snapshot id
                            (set_snaps (<[id := Regular]> (snaps w)) w)))
  else
    in_world (emit (StoreSetDefault id false)) ;;
    throw FinalizeError.

(** Modelled from the spec: SnapshotStore.delete(id), absent from the
    sources. *)
Definition deleteSnapshot (id : string) (w : World) : World :=
  emit (StoreDelete id) (set_snaps (delete id (snaps w)) w).

(** Modelled from the spec: the ProcessRunner, absent from the sources.
    It blocks until the child exits and returns its exit status; a runner
    that cannot start the child propagates its own error. *)
Definition spawn (e : Event) : TxM Z :=
  in_world (emit e) ;;
  match child_status env with
  | Some status => ret status
  | None => throw ProcessRunnerError
  end.

(** Modelled from the spec: the precondition [state = st] that section 4.1
    gives every operation of the missing [Transaction]; an operation
    called in another state fails without any effect. *)
Definition require_state (op : string) (st : TxState) : TxM Transaction :=
  t <- the_tx ;;
  match tx_state t, st with
  | Uninitialized, Uninitialized | Open, Open => ret t
  | _, _ => throw (PreconditionError op)
  end.

(** Modelled from the spec: [Transaction::init] (section 4.1), whose
    definition is missing.  Creates the snapshot and leaves the
    transaction Open and not retained. *)
Definition init (base : string) : TxM unit :=
  in_world (emit (CallInit base)) ;;
  require_state "init" Uninitialized ;;
  r <- createSnapshot base ;;
  set_tx (mkTransaction (Some (fst r)) Open base (snd r) false).

(** Modelled from the spec: [Transaction::resume] (section 4.1), whose
    definition is missing.  It reattaches to an existing, not yet
    finalized snapshot and sets the state to Open and retain to true. *)
Definition resume (id : string) : TxM unit :=
  in_world (emit (CallResume id)) ;;
  t <- require_state "resume" Uninitialized ;;
  if decide (id = EmptyString) then throw (UnknownTransactionError id)
  else
    path <- mountPathOf id ;;
    set_tx (mkTransaction (Some id) Open (tx_basis t) path true).

(** Modelled from the spec: what the missing [Transaction::execute] runs,
    an interactive login shell when the argument list is empty. *)
Definition program_of (argv : list string) : Program :=
  match argv with
  | [] => LoginShell
  | _ => Command argv
  end.

(** Modelled from the spec: [Transaction::execute] (section 4.1), whose
    definition is missing.  Runs the command, or a login shell when
    there is none, in a chroot at the mount path; the state is left as
    it is. *)
Definition execute (argv : list string) : TxM Z :=
  in_world (emit (CallExecute argv)) ;;
  t <- require_state "execute" Open ;;
  spawn (RunChroot (tx_mountPath t) (program_of argv)).

(** Modelled from the spec: [Transaction::callExt] (section 4.1), whose
    definition is missing.  Every placeholder token of the argument list
    is replaced with the mount path and the command runs on the host. *)
Definition callExt (argv : list string) : TxM Z :=
  in_world (emit (CallCallExt argv)) ;;
  t <- require_state "callExt" Open ;;
  spawn (RunHost (Command
    (map (fun a => if decide (a = "{}") then tx_mountPath t else a) argv))).

(** Modelled from the spec: [Transaction::finalize] (section 4.1), whose
    definition is missing.  When setDefault fails the error goes to the
    caller and the state is still Open. *)
Definition finalize : TxM unit :=
  in_world (emit CallFinalize) ;;
  t <- require_state "finalize" Open ;;
  setDefault (default EmptyString (tx_id t)) ;;
  set_tx (mkTransaction (tx_id t) Finalized (tx_basis t) (tx_mountPath t)
            (tx_retain t)).

(** Modelled from the spec: [Transaction::keep] (section 4.1), whose
    definition is missing. *)
Definition keep : TxM unit :=
  in_world (emit CallKeep) ;;
  t <- require_state "keep" Open ;;
  set_tx (mkTransaction (tx_id t) (tx_state t) (tx_basis t) (tx_mountPath t)
            true).

(** Modelled from the spec: [Transaction::getSnapshot] (section 4.1),
    whose definition is missing. *)
Definition getSnapshot : TxM string :=
  in_world (emit CallGetSnapshot) ;;
  t <- the_tx ;;
  ret (default EmptyString (tx_id t)).

(** Modelled from the spec: implicit disposal on scope exit (section
    4.1), the missing destructor of [Transaction].  An Open transaction
    that is not retained loses its snapshot. *)
Definition Transaction_dtor (s : Transaction * World) : Transaction * World :=
  let t := fst s in
  let w := emit Dispose (snd s) in
  match tx_state t, tx_retain t with
  | Open, false =>
      (mkTransaction (tx_id t) Discarded (tx_basis t) (tx_mountPath t)
         (tx_retain t),
       deleteSnapshot (default EmptyString (tx_id t)) w)
  | _, _ => (t, w)
  end.

End Engine.

(** ** tukit.cpp *)

Definition LF : string := String (ascii_of_nat 10) EmptyString.
Definition TAB : string := String (ascii_of_nat 9) EmptyString.

(** [cout << text]. *)
Definition cout {S} (inj : (World -> World) -> S -> S) (text : string) : M S unit :=
  modify (inj (add_stdout text)).

Definition on_world (f : World -> World) : World -> World := f.
Definition on_snd (f : World -> World) (s : Transaction * World)
  : Transaction * World := (fst s, f (snd s)).

(** The text [TUKit::displayHelp] writes, one list entry per [cout] line;
    the final [endl] adds the empty last line. *)
Definition help_lines : list string :=
  [ "Syntax: tukit [option...] command";
    EmptyString;
    "Manage transactions ...";
    EmptyString;
    "Commands:";
    "execute <command>";
    TAB +:+ "Opens a new snapshot and executes the given command; on success the snapshot";
    TAB +:+ "will be set as the new default snapshot, any non-zero return value will";
    TAB +:+ "delete the snapshot again.";
    TAB +:+ "If no command is given an interactive shell will be opened.";
    "open";
    TAB +:+ "Creates a new transaction and prints its unique ID";
    "call <ID> <command>";
    TAB +:+ "Executes the given command from within the transaction's chroot environment,";
    TAB +:+ "resuming the transaction with the given ID; returns the exit status of the";
    TAB +:+ "given command, but will not delete the snapshot in case of errors";
    "callext <ID> <command>";
    TAB +:+ "Executes the given command. The command is not executed in a chroot";
    TAB +:+ "environment, but instead runs in the current system, replacing '{}' with the";
    TAB +:+ "mount directory of the given snapshot; returns the exit status of the given";
    TAB +:+ "command, but will not delete the snapshot in case of errors";
    "close <ID>";
    TAB +:+ "Closes the given transaction and sets the snapshot as the new default snapshot";
    "abort <ID>";
    TAB +:+ "Deletes the given snapshot again";
    "Options:";
    "--continue[=<ID>], -c[<ID>]  Use latest or given snapshot as base";
    "--help, -h                   Display this help and exit";
    "--quiet, -q                  Decrease verbosity";
    "--verbose, -v                Increase verbosity";
    "--version, -V                Display version and exit";
    EmptyString ].

Definition help_text : string :=
  foldr (fun line rest => line +:+ LF +:+ rest) EmptyString help_lines.

Definition displayHelp {S} (inj : (World -> World) -> S -> S) : M S unit :=
  cout inj help_text.

(** *** getopt_long

    [getopt_long] belongs to the C library.  What follows is its behaviour
    for the option table of [parseOptions]: the short options of
    ["+c::hqv"] (the leading [+] stops the scan at the first argument that
    is not an option), and the five long options, which may be abbreviated
    to any unambiguous prefix.  An optional argument must be attached
    ([-cID], [--continue=ID]).  The messages getopt prints on the standard
    error stream are left out. *)

Inductive HasArg : Type := no_argument | optional_argument.

Definition longopts : list (string * HasArg * ascii) :=
  [ ("continue", optional_argument, "c"%char);
    ("help", no_argument, "h"%char);
    ("quiet", no_argument, "q"%char);
    ("verbose", no_argument, "v"%char);
    ("version", no_argument, "V"%char) ].

Definition short_option (c : ascii) : option HasArg :=
  if decide (c = "c"%char) then Some optional_argument
  else if decide (c = "h"%char) then Some no_argument
  else if decide (c = "q"%char) then Some no_argument
  else if decide (c = "v"%char) then Some no_argument
  else None.

(** One return of getopt_long: the option character (or [?]) and [optarg]. *)
Definition GetoptRet : Type := ascii * option string.

Definition nonempty (s : string) : option string :=
  match s with
  | EmptyString => None
  | _ => Some s
  end.

(** The options of one argument [-xyz], given without its dash. *)
Fixpoint getopt_cluster (cluster : string) : list GetoptRet :=
  match cluster with
  | EmptyString => []
  | String c rest =>
      match short_option c with
      | Some optional_argument => [(c, nonempty rest)]
      | Some no_argument => (c, None) :: getopt_cluster rest
      | None => ("?"%char, None) :: getopt_cluster rest
      end
  end.

(** Splits [name=value] at the first [=]. *)
Fixpoint split_eq (s : string) : string * option string :=
  match s with
  | EmptyString => (EmptyString, None)
  | String c rest =>
      if decide (c = "="%char) then (EmptyString, Some rest)
      else let (n, v) := split_eq rest in (String c n, v)
  end.

(** The option of one argument [--body]. *)
Definition getopt_longopt (body : string) : GetoptRet :=
  let (name, value) := split_eq body in
  match filter (fun o => String.prefix name (fst (fst o)) = true) longopts with
  | [(_, has_arg, val)] =>
      match has_arg, value with
      | no_argument, Some _ => ("?"%char, None)
      | _, _ => (val, value)
      end
  | _ => ("?"%char, None)
  end.

(** All returns of getopt_long before its final -1, and [optind] at that
    point; [args] are the arguments from index [optind] on. *)
Fixpoint getopt_scan (args : list string) (optind : Z) : list GetoptRet * Z :=
  match args with
  | [] => ([], optind)
  | a :: rest =>
      match a with
      | String c1 (String c2 body) =>
          if decide (c1 = "-"%char) then
            if decide (c2 = "-"%char) then
              match body with
              | EmptyString => ([], optind + 1)
              | _ => let (rs, i) := getopt_scan rest (optind + 1) in
                     (getopt_longopt body :: rs, i)
              end
            else let (rs, i) := getopt_scan rest (optind + 1) in
                 ((getopt_cluster (String c2 body) ++ rs)%list, i)
          else ([], optind)
      | _ => ([], optind)
      end
  end.

Section Driver.
Context (env : Env).

(** The loop of [TUKit::parseOptions] over the returns of getopt_long. *)
Fixpoint parseOptions_loop (rs : list GetoptRet) (optind : Z) : M World Z :=
  match rs with
  | [] => ret optind
  | (c, optarg) :: rs' =>
      if decide (c = "c"%char) then
        modify (set_baseSnapshot
                  (match optarg with
                   | Some a => a
                   | None => "default"
                   end)) ;;
        parseOptions_loop rs' optind
      else if decide (c = "h"%char) then
        displayHelp on_world ;; ret 0
      else if decide (c = "q"%char) then
        modify (set_tulog_level ERROR) ;; parseOptions_loop rs' optind
      else if decide (c = "v"%char) then
        modify (set_tulog_level DEBUG) ;; parseOptions_loop rs' optind
      else if decide (c = "V"%char) then
        cout on_world (VERSION env +:+ LF) ;; ret 0
      else if decide (c = "?"%char) then
        displayHelp on_world ;; ret (-1)
      else parseOptions_loop rs' optind
  end.

(** [TUKit::parseOptions]; [argv] includes the program name. *)
Definition parseOptions (argv : list string) : M World Z :=
  let (rs, optind) := getopt_scan (drop 1 argv) 1 in
  parseOptions_loop rs optind.

(** Converting [argv[i]] to a [std::string].  Building a string from a
    null pointer is undefined; libstdc++ throws [std::logic_error]. *)
Definition string_of_ptr (p : option string) : TxM string :=
  match p with
  | Some s => ret s
  | None => throw (logic_error "basic_string: construction from null is not valid")
  end.

(** The body of [TUKit::processCommand].  [argv] is the null-terminated
    array: [argv !! i = None] is [argv[i] == nullptr] and [drop i argv]
    is [&argv[i]]. *)
Definition processCommand_body (argv : list string) : TxM Z :=
  match argv !! 0%nat with
  | None =>
      throw (invalid_argument "Missing command. See --help for usage information.")
  | Some arg =>
      if decide (arg = "execute") then
        base <- gets (fun s => baseSnapshot (snd s)) ;;
        init env base ;;
        status <- execute env (drop 1 argv) ;;
        (if decide (status = 0) then finalize env
         else throw (runtime_error
                ("Application returned with exit status " +:+ to_string status))) ;;
        ret 0
      else if decide (arg = "open") then
        base <- gets (fun s => baseSnapshot (snd s)) ;;
        init env base ;;
        id <- getSnapshot ;;
        cout on_snd ("ID: " +:+ id +:+ LF) ;;
        keep ;;
        ret 0
      else if decide (arg = "call") then
        match argv !! 1%nat with
        | None =>
            displayHelp on_snd ;;
            throw (invalid_argument "Missing argument for 'call'")
        | Some id =>
            resume env id ;;
            status <- execute env (drop 2 argv) ;;
            keep ;;
            ret status
        end
      else if decide (arg = "callext") then
        match argv !! 1%nat with
        | None =>
            displayHelp on_snd ;;
            throw (invalid_argument "Missing argument for 'callext'")
        | Some id =>
            resume env id ;;
            status <- callExt env (drop 2 argv) ;;
            keep ;;
            ret status
        end
      else if decide (arg = "close") then
        id <- string_of_ptr (argv !! 1%nat) ;;
        resume env id ;;
        finalize env ;;
        ret 0
      else if decide (arg = "abort") then
        id <- string_of_ptr (argv !! 1%nat) ;;
        resume env id ;;
        ret 0
      else
        displayHelp on_snd ;;
        throw (invalid_argument ("Unknown command or option '" +:+ arg +:+ "'."))
  end.

(** [TUKit::processCommand]: the local [transaction] is constructed first
    and destroyed on every way out. *)
Definition processCommand (argv : list string) : M World Z :=
  fun w =>
    let (r, s) := finally (processCommand_body argv) Transaction_dtor
                    (Transaction_new, w) in
    (r, snd s).

(** *** class Lock *)

Record Lock : Type := mkLock { lockfile : Z }.

(** [open(LOCKFILE, O_CREAT|O_WRONLY, 0600)]: the descriptor, or -1. *)
Definition open_lockfile : M World Z :=
  if open_ok env then
    modify (fun w => emit (EvOpenLockfile true)
                       (set_lockfile true (lock_owned w) w)) ;;
    ret 3
  else
    modify (emit (EvOpenLockfile false)) ;; ret (-1).

(** [lockf(fd, F_TLOCK, 10000)]: 0, or -1 when another process holds the
    lock. *)
Definition lockf_tlock (fd : Z) : M World Z :=
  if lock_held_by_other env then
    modify (emit (EvLockf false)) ;; ret (-1)
  else
    modify (fun w => emit (EvLockf true)
                       (set_lockfile (lockfile_exists w) true w)) ;;
    ret 0.

(** [Lock::Lock].  The [remove] after the second [throw] is never
    reached, and the destructor of an object whose constructor threw
    does not run. *)
Definition Lock_ctor : M World Lock :=
  fd <- open_lockfile ;;
  if decide (fd < 0) then
    throw (runtime_error ("Could not create lock file '" +:+ LOCKFILE env
                          +:+ "': " +:+ strerror_errno env))
  else
    status <- lockf_tlock fd ;;
    if decide (status ≠ 0) then
      throw (runtime_error ("Another instance of tukit is already running: "
                            +:+ strerror_errno env))
    else ret (mkLock fd).

(** [Lock::~Lock]: [close] gives up the lock, [remove] unlinks the file. *)
Definition Lock_dtor (l : Lock) (w : World) : World :=
  let w1 := emit EvCloseLockfile (set_lockfile (lockfile_exists w) false w) in
  emit EvRemoveLockfile (set_lockfile false (lock_owned w1) w1).

(** *** Signals *)

Definition tulog_debug (msg : string) : World -> World := add_log DEBUG msg.
Definition tulog_info (msg : string) : World -> World := add_log INFO msg.

(** [interrupt]: nothing but a debug message. *)
Definition interrupt (signal : Z) (w : World) : World :=
  tulog_debug ("tukit: Received signal " +:+ to_string signal) w.

(** [signal(s, interrupt)]. *)
Definition signal (s : Signal) : M World unit :=
  modify (fun w => emit (EvSignal s)
                     (set_sigtable ((s, Handler_interrupt) :: sigtable w) w)).

Definition disposition (w : World) (s : Signal) : Disposition :=
  match list_find (fun p => signum (fst p) = signum s) (sigtable w) with
  | Some (_, (_, d)) => d
  | None => SIG_DFL
  end.

(** What the arrival of signal [s] does to the process. *)
Inductive Delivery : Type :=
| Terminated
| Continues (w : World).

Definition deliver (s : Signal) (w : World) : Delivery :=
  match disposition w s with
  | SIG_DFL => Terminated
  | Handler_interrupt => Continues (interrupt (signum s) w)
  end.

(** *** The constructor *)

Definition optionsline (argv : list string) : string :=
  foldl (fun line a => line +:+ a +:+ " ") "Options: " (drop 1 argv).

(** [TUKit::TUKit(argc, argv)], with [argc = length argv]. *)
Definition TUKit (argv : list string) : M World unit :=
  signal SIGINT ;;
  signal SIGHUP ;;
  signal SIGQUIT ;;
  signal SIGTERM ;;
  modify (set_tulog_level INFO) ;;
  r <- parseOptions argv ;;
  if decide (r <= 0) then throw (thrown_int r)
  else
    lock <- Lock_ctor ;;
    finally
      (modify (tulog_info ("tukit " +:+ VERSION env +:+ " started")) ;;
       modify (tulog_info (optionsline argv)) ;;
       r <- processCommand (drop (Z.to_nat r) argv) ;;
       if decide (r ≠ 0) then throw (thrown_int r)
       else modify (tulog_info "Transaction completed."))
      (Lock_dtor lock).

End Driver.

(** ** Reading a run *)

(** [TUKit::TUKit] up to the point where the options are parsed. *)
Definition startup (env : Env) (argv : list string) : M World Z :=
  signal SIGINT ;;
  signal SIGHUP ;;
  signal SIGQUIT ;;
  signal SIGTERM ;;
  modify (set_tulog_level INFO) ;;
  parseOptions env argv.

(** What a run from [w] to [w'] added to the trace. *)
Definition events_since (w w' : World) : list Event :=
  drop (length (trace w)) (trace w').

(** A step from [w] to [w'] that leaves the signal table and the lock file
    alone and adds only events satisfying [P] to the trace. *)
Definition quiet (P : Event -> Prop) (w w' : World) : Prop :=
  sigtable w' = sigtable w /\
  lockfile_exists w' = lockfile_exists w /\
  lock_owned w' = lock_owned w /\
  exists evs, trace w' = (trace w ++ evs)%list /\ Forall P evs.

(** A computation all of whose runs are [quiet]. *)
Definition frames {S A} (proj : S -> World) (P : Event -> Prop) (m : M S A)
  : Prop :=
  forall s, quiet P (proj s) (proj (snd (m s))).

Definition transaction_event (e : Event) : Prop := is_transaction_event e = true.

Definition not_signal_event (e : Event) : Prop := forall s, e <> EvSignal s.

(** The message of the error a second instance fails with. *)
Definition already_running (env : Env) : Exn :=
  runtime_error ("Another instance of tukit is already running: "
                 +:+ strerror_errno env).

(** The message for a command line argument that is a null pointer. *)
Definition null_string : Exn :=
  logic_error "basic_string: construction from null is not valid".

(** The commands [processCommand] knows. *)
Definition is_command (arg : string) : Prop :=
  arg ∈ ["execute"; "open"; "call"; "callext"; "close"; "abort"].

(** What [TUKit::TUKit] does while it holds the lock; [r] is the index of
    the command in [argv]. *)
Definition locked_part (env : Env) (argv : list string) (r : Z) : M World unit :=
  modify (tulog_info ("tukit " +:+ VERSION env +:+ " started")) ;;
  modify (tulog_info (optionsline argv)) ;;
  r' <- processCommand env (drop (Z.to_nat r) argv) ;;
  if decide (r' ≠ 0) then throw (thrown_int r')
  else modify (tulog_info "Transaction completed.").

(** The world after [Lock::Lock] opened the lock file, after its [lockf]
    was refused, and after its [lockf] succeeded. *)
Definition after_open (w : World) : World :=
  emit (EvOpenLockfile true) (set_lockfile true (lock_owned w) w).

Definition after_refusal (w : World) : World :=
  emit (EvLockf false) (after_open w).

Definition after_acquire (w : World) : World :=
  emit (EvLockf true)
    (set_lockfile (lockfile_exists (after_open w)) true (after_open w)).

(** The error for a lock file that cannot be opened. *)
Definition cannot_create (env : Env) : Exn :=
  runtime_error ("Could not create lock file '" +:+ LOCKFILE env
                 +:+ "': " +:+ strerror_errno env).

(** ** A concrete machine for the examples

    A store with the regular snapshot 1, which is the default, and the
    snapshot 3 of a transaction that was opened earlier. *)

Definition sample_mount_path (id : string) : string :=
  "/.snapshots/" +:+ id +:+ "/snapshot".

Definition sample_env (held setdef : bool) (child : option Z) : Env :=
  mkEnv "/var/run/tukit.lock" "3.1.0" true held
        "Resource temporarily unavailable" (Some "7") sample_mount_path
        setdef child.

Definition sample_world : World :=
  mkWorld (<["3" := InProgress]> (<["1" := Regular]> ∅)) "1" false false []
          "default" INFO [] [] [].


(** ** Further notions for the properties of the driver *)

(** The events of the body of [processCommand]: the calls into the
    transaction and what these ask of the store and of the process runner.
    The destructor's [Dispose] and [StoreDelete] are not among them. *)
Definition is_body_event (e : Event) : bool :=
  match e with
  | CallInit _ | CallResume _ | CallExecute _ | CallCallExt _ | CallFinalize
  | CallKeep | CallGetSnapshot | StoreCreate _ _ | StoreMountPathOf _ _
  | StoreSetDefault _ _ | RunChroot _ _ | RunHost _ => true
  | _ => false
  end.

Definition body_event (e : Event) : Prop := is_body_event e = true.

(** The arguments getopt_long reads as options: a dash and at least one
    more character. *)
Definition is_option (a : string) : bool :=
  match a with
  | String c1 (String _ _) => bool_decide (c1 = "-"%char)
  | _ => false
  end.

(** A computation all of whose normal results satisfy [Q]. *)
Definition returns {S A} (Q : A -> Prop) (m : M S A) : Prop :=
  forall s a s', m s = (Ok a, s') -> Q a.

(** The world [processCommand] starts in when the constructor has taken
    the lock in [w1]: the two info lines are logged. *)
Definition command_world (env : Env) (argv : list string) (w1 : World) : World :=
  tulog_info (optionsline argv)
    (tulog_info ("tukit " +:+ VERSION env +:+ " started") (after_acquire w1)).





(** ** Proof tools *)

Lemma events_since_app (w w' : World) (evs : list Event) :
  trace w' = (trace w ++ evs)%list -> events_since w w' = evs.
Proof.
  intros H. unfold events_since. rewrite H. apply drop_app_length.
Qed.

(** Unfolds the monad and the engine down to the questions asked of the
    environment and of the store. *)
Ltac run_engine :=
  cbv beta iota delta
    [processCommand finally bind ret throw modify gets in_world set_tx
     the_tx the_world init resume execute callExt finalize keep getSnapshot
     createSnapshot mountPathOf setDefault spawn require_state
     Transaction_dtor deleteSnapshot cout displayHelp on_snd on_world
     string_of_ptr Transaction_new fst snd tx_state tx_retain tx_id
     tx_mountPath tx_basis default].

Ltac world_fields :=
  cbn [trace snaps default_snapshot lockfile_exists lock_owned sigtable
       baseSnapshot tulog_level log stdout emit set_snaps
       set_default_snapshot set_lockfile set_sigtable set_baseSnapshot
       set_tulog_level add_log add_stdout tulog_info tulog_debug].

Ltac trace_eq :=
  apply events_since_app; world_fields;
  repeat rewrite <- app_assoc; reflexivity.

(** The branches of the dispatch in [processCommand]. *)
Section Dispatch.
Context (env : Env).

Lemma dispatch_execute (cmd : list string) :
  processCommand_body env ("execute" :: cmd) =
  (base <- gets (fun s => baseSnapshot (snd s)) ;;
   init env base ;;
   status <- execute env cmd ;;
   (if decide (status = 0) then finalize env
    else throw (runtime_error
           ("Application returned with exit status " +:+ to_string status))) ;;
   ret 0).
Proof. reflexivity. Qed.

Lemma dispatch_call (id : string) (cmd : list string) :
  processCommand_body env ("call" :: id :: cmd) =
  (resume env id ;; status <- execute env cmd ;; keep ;; ret status).
Proof. reflexivity. Qed.

Lemma dispatch_callext (id : string) (cmd : list string) :
  processCommand_body env ("callext" :: id :: cmd) =
  (resume env id ;; status <- callExt env cmd ;; keep ;; ret status).
Proof. reflexivity. Qed.

Lemma dispatch_close (rest : list string) :
  processCommand_body env ("close" :: rest) =
  (id <- string_of_ptr (rest !! 0%nat) ;;
   resume env id ;; finalize env ;; ret 0).
Proof. reflexivity. Qed.

Lemma dispatch_abort (rest : list string) :
  processCommand_body env ("abort" :: rest) =
  (id <- string_of_ptr (rest !! 0%nat) ;; resume env id ;; ret 0).
Proof. reflexivity. Qed.

End Dispatch.

(** ** The commands *)

(** At the sample input the child of [execute] exits with status 0 and
    finalize is called, but setDefault fails: the new snapshot does not
    become the default one, and implicit disposal deletes it. *)
Lemma execute_success_counterexample :
  child_status (sample_env false false (Some 0)) = Some 0 /\
  exists w',
    processCommand (sample_env false false (Some 0)) ["execute"; "zypper"; "dup"]
      sample_world = (Throw FinalizeError, w') /\
    events_since sample_world w' =
      [ CallInit "default"; StoreCreate "default" (Some "7");
        CallExecute ["zypper"; "dup"];
        RunChroot "/.snapshots/7/snapshot" (Command ["zypper"; "dup"]);
        CallFinalize; StoreSetDefault "7" false; Dispose; StoreDelete "7" ] /\
    default_snapshot w' <> "7" /\
    snaps w' !! "7" = None.
Proof.
  split; [reflexivity|].
  eexists. split; [reflexivity|]. split; [reflexivity|].
  split; [discriminate | reflexivity].
Qed.

(** C1, amended. Whenever the child of [execute] exits with status 0 the driver
    calls finalize.  With a setDefault that succeeds, the new snapshot
    becomes the default one, it stays in the store, nothing is deleted, and
    the command returns 0. *)
Theorem execute_success_finalizes
    (env : Env) (w : World) (cmd : list string) (id : string) :
  new_snapshot env = Some id ->
  snaps w !! id = None ->
  child_status env = Some 0 ->
  exists r w',
    processCommand env ("execute" :: cmd) w = (r, w') /\
    CallFinalize ∈ events_since w w' /\
    (setDefault_ok env = true ->
     r = Ok 0 /\
     events_since w w' =
       [ CallInit (baseSnapshot w); StoreCreate (baseSnapshot w) (Some id);
         CallExecute cmd; RunChroot (mount_path env id) (program_of cmd);
         CallFinalize; StoreSetDefault id true; Dispose ] /\
     default_snapshot w' = id /\
     snaps w' !! id = Some Regular).
Proof.
  intros Hnew Hfresh Hchild.
  unfold processCommand. rewrite dispatch_execute.
  run_engine. world_fields. rewrite Hnew, Hfresh, Hchild.
  run_engine. world_fields.
  destruct (setDefault_ok env); run_engine; world_fields.
  - do 2 eexists. split; [reflexivity|]. world_fields.
    assert (Hev : forall w', trace w' =
              (trace w ++
               [ CallInit (baseSnapshot w); StoreCreate (baseSnapshot w) (Some id);
                 CallExecute cmd; RunChroot (mount_path env id) (program_of cmd);
                 CallFinalize; StoreSetDefault id true; Dispose ])%list ->
              events_since w w' =
               [ CallInit (baseSnapshot w); StoreCreate (baseSnapshot w) (Some id);
                 CallExecute cmd; RunChroot (mount_path env id) (program_of cmd);
                 CallFinalize; StoreSetDefault id true; Dispose ])
      by (intros w'; apply events_since_app).
    rewrite Hev by (world_fields; by repeat rewrite <- app_assoc).
    split; [set_solver|]. intros _.
    split; [reflexivity|]. split; [reflexivity|]. split; [reflexivity|].
    apply lookup_insert_eq.
  - do 2 eexists. split; [reflexivity|].
    split; [|discriminate].
    erewrite events_since_app
      by (world_fields; repeat rewrite <- app_assoc; reflexivity).
    set_solver.
Qed.

Lemma execute_success_finalizes_witness :
  exists r w',
    processCommand (sample_env false true (Some 0)) ["execute"; "true"]
      sample_world = (r, w') /\
    CallFinalize ∈ events_since sample_world w' /\
    (setDefault_ok (sample_env false true (Some 0)) = true ->
     r = Ok 0 /\
     events_since sample_world w' =
       [ CallInit "default"; StoreCreate "default" (Some "7");
         CallExecute ["true"];
         RunChroot "/.snapshots/7/snapshot" (Command ["true"]);
         CallFinalize; StoreSetDefault "7" true; Dispose ] /\
     default_snapshot w' = "7" /\
     snaps w' !! "7" = Some Regular).
Proof.
  apply (execute_success_finalizes (sample_env false true (Some 0))
           sample_world ["true"] "7"); reflexivity.
Defined.

(** C2. Whenever the child of [execute] exits with a status other than 0,
    finalize is not called, the caller gets a runtime error naming the
    status, implicit disposal deletes the snapshot that was created, and
    the store and its default snapshot are as before. *)
Theorem execute_failure_discards
    (env : Env) (w : World) (cmd : list string) (id : string) (status : Z) :
  new_snapshot env = Some id ->
  snaps w !! id = None ->
  child_status env = Some status ->
  status <> 0 ->
  exists w',
    processCommand env ("execute" :: cmd) w =
      (Throw (runtime_error
                ("Application returned with exit status " +:+ to_string status)),
       w') /\
    events_since w w' =
      [ CallInit (baseSnapshot w); StoreCreate (baseSnapshot w) (Some id);
        CallExecute cmd; RunChroot (mount_path env id) (program_of cmd);
        Dispose; StoreDelete id ] /\
    snaps w' = snaps w /\
    default_snapshot w' = default_snapshot w.
Proof.
  intros Hnew Hfresh Hchild Hstatus.
  unfold processCommand. rewrite dispatch_execute.
  run_engine. world_fields. rewrite Hnew, Hfresh, Hchild.
  destruct (decide (status = 0)) as [E|_]; [contradiction|].
  run_engine. world_fields.
  eexists. split; [reflexivity|]. world_fields.
  split; [trace_eq|]. split; [|reflexivity].
  by apply delete_insert_id.
Qed.

Lemma execute_failure_discards_witness :
  exists w',
    processCommand (sample_env false true (Some 1)) ["execute"; "false"]
      sample_world =
      (Throw (runtime_error "Application returned with exit status 1"), w') /\
    events_since sample_world w' =
      [ CallInit "default"; StoreCreate "default" (Some "7");
        CallExecute ["false"];
        RunChroot "/.snapshots/7/snapshot" (Command ["false"]);
        Dispose; StoreDelete "7" ] /\
    snaps w' = snaps sample_world /\
    default_snapshot w' = default_snapshot sample_world.
Proof.
  apply (execute_failure_discards (sample_env false true (Some 1))
           sample_world ["false"] "7" 1); [reflexivity..|lia].
Defined.

(** C3. [call] and [callext] on an open transaction: whatever the exit
    status of the child, keep is invoked, finalize is not, nothing is
    deleted or made the default, and the status is what [processCommand]
    returns. *)
Theorem call_keeps_transaction
    (env : Env) (w : World) (id : string) (cmd : list string) (status : Z) :
  id <> EmptyString ->
  snaps w !! id = Some InProgress ->
  child_status env = Some status ->
  (exists w',
     processCommand env ("call" :: id :: cmd) w = (Ok status, w') /\
     events_since w w' =
       [ CallResume id; StoreMountPathOf id true; CallExecute cmd;
         RunChroot (mount_path env id) (program_of cmd); CallKeep; Dispose ] /\
     snaps w' = snaps w /\
     default_snapshot w' = default_snapshot w) /\
  (exists w',
     processCommand env ("callext" :: id :: cmd) w = (Ok status, w') /\
     events_since w w' =
       [ CallResume id; StoreMountPathOf id true; CallCallExt cmd;
         RunHost (Command
           (map (fun a => if decide (a = "{}") then mount_path env id else a)
                cmd));
         CallKeep; Dispose ] /\
     snaps w' = snaps w /\
     default_snapshot w' = default_snapshot w).
Proof.
  intros Hid Hopen Hchild. split.
  - unfold processCommand. rewrite dispatch_call.
    run_engine. world_fields.
    destruct (decide (id = EmptyString)) as [E|_]; [contradiction|].
    run_engine. world_fields. rewrite Hopen, Hchild. run_engine. world_fields.
    eexists. split; [reflexivity|]. world_fields.
    split; [trace_eq|]. split; reflexivity.
  - unfold processCommand. rewrite dispatch_callext.
    run_engine. world_fields.
    destruct (decide (id = EmptyString)) as [E|_]; [contradiction|].
    run_engine. world_fields. rewrite Hopen, Hchild. run_engine. world_fields.
    eexists. split; [reflexivity|]. world_fields.
    split; [trace_eq|]. split; reflexivity.
Qed.

Lemma call_keeps_transaction_witness :
  (exists w',
     processCommand (sample_env false true (Some 4)) ["call"; "3"; "zypper"; "up"]
       sample_world = (Ok 4, w') /\
     events_since sample_world w' =
       [ CallResume "3"; StoreMountPathOf "3" true;
         CallExecute ["zypper"; "up"];
         RunChroot "/.snapshots/3/snapshot" (Command ["zypper"; "up"]);
         CallKeep; Dispose ] /\
     snaps w' = snaps sample_world /\
     default_snapshot w' = "1") /\
  (exists w',
     processCommand (sample_env false true (Some 4)) ["callext"; "3"; "ls"; "{}"]
       sample_world = (Ok 4, w') /\
     events_since sample_world w' =
       [ CallResume "3"; StoreMountPathOf "3" true; CallCallExt ["ls"; "{}"];
         RunHost (Command ["ls"; "/.snapshots/3/snapshot"]);
         CallKeep; Dispose ] /\
     snaps w' = snaps sample_world /\
     default_snapshot w' = "1").
Proof.
  split.
  - apply (call_keeps_transaction (sample_env false true (Some 4))
             sample_world "3" ["zypper"; "up"] 4); [discriminate|reflexivity..].
  - apply (call_keeps_transaction (sample_env false true (Some 4))
             sample_world "3" ["ls"; "{}"] 4); [discriminate|reflexivity..].
Defined.

(** ** Resuming *)

(** The disposal rule: the snapshot of an Open transaction is gone after
    the destructor exactly when the transaction is not retained. *)
Lemma dispose_deletes_iff (t : Transaction) (w : World) (id : string) :
  tx_state t = Open ->
  tx_id t = Some id ->
  is_Some (snaps w !! id) ->
  snaps (snd (Transaction_dtor (t, w))) !! id = None <-> tx_retain t = false.
Proof.
  destruct t as [i st b m r]. cbn [tx_state tx_id tx_retain].
  intros -> -> [x Hx]. unfold Transaction_dtor, deleteSnapshot.
  cbn [fst snd tx_state tx_retain tx_id default from_option].
  destruct r; cbn [snd]; world_fields.
  - rewrite Hx. split; discriminate.
  - split; [reflexivity|]. intros _. apply lookup_delete_eq.
Qed.






(** ** A failing finalize *)




(** ** Usage errors *)

(** Where the driver checks its arguments: a missing command, a missing
    id for [call] or [callext] and an unknown command all end in
    [invalid_argument] without a single call into the transaction. The
    last three print the usage text first. *)
Lemma usage_errors (env : Env) (w : World) :
  processCommand env [] w =
    (Throw (invalid_argument "Missing command. See --help for usage information."),
     emit Dispose w) /\
  processCommand env ["call"] w =
    (Throw (invalid_argument "Missing argument for 'call'"),
     emit Dispose (add_stdout help_text w)) /\
  processCommand env ["callext"] w =
    (Throw (invalid_argument "Missing argument for 'callext'"),
     emit Dispose (add_stdout help_text w)) /\
  (forall arg rest,
     ~ is_command arg ->
     processCommand env (arg :: rest) w =
       (Throw (invalid_argument ("Unknown command or option '" +:+ arg +:+ "'.")),
        emit Dispose (add_stdout help_text w))).
Proof.
  repeat split.
  intros arg rest Hnot.
  unfold processCommand, processCommand_body. cbn [lookup list_lookup].
  repeat (destruct (decide _) as [->|_];
          [exfalso; apply Hnot; unfold is_command; set_solver|]).
  reflexivity.
Qed.

(** C8. [close] and [abort] without an id: the driver has no check there
    and turns the null [argv[1]] into a string.  No usage text is written
    and the error is not a usage error. *)
Theorem close_abort_without_id (env : Env) (w : World) :
  processCommand env ["close"] w = (Throw null_string, emit Dispose w) /\
  processCommand env ["abort"] w = (Throw null_string, emit Dispose w) /\
  stdout (emit Dispose w) = stdout w.
Proof. repeat split. Qed.

(** ** Framing: what a computation cannot touch *)

Section Frames.
Context (P : Event -> Prop).

Lemma quiet_refl (w : World) : quiet P w w.
Proof.
  repeat split. exists []. split; [by rewrite app_nil_r | constructor].
Qed.

Lemma quiet_trans (w1 w2 w3 : World) :
  quiet P w1 w2 -> quiet P w2 w3 -> quiet P w1 w3.
Proof.
  intros (Hs1 & Hl1 & Ho1 & evs1 & Ht1 & Hp1) (Hs2 & Hl2 & Ho2 & evs2 & Ht2 & Hp2).
  repeat split; try congruence.
  exists (evs1 ++ evs2)%list. split.
  - rewrite Ht2, Ht1. by rewrite app_assoc.
  - by apply Forall_app.
Qed.

Lemma quiet_emit (e : Event) (w : World) : P e -> quiet P w (emit e w).
Proof.
  intros He. repeat split. exists [e]. split; [reflexivity|].
  by constructor.
Qed.

Lemma quiet_same (w w' : World) :
  sigtable w' = sigtable w ->
  lockfile_exists w' = lockfile_exists w ->
  lock_owned w' = lock_owned w ->
  trace w' = trace w ->
  quiet P w w'.
Proof.
  intros Hs Hl Ho Ht. repeat split; try assumption.
  exists []. split; [by rewrite app_nil_r | constructor].
Qed.

Context {S : Type} (proj : S -> World).

Lemma frames_ret {A} (a : A) : frames proj P (ret a).
Proof. intros s. apply quiet_refl. Qed.

Lemma frames_throw {A} (e : Exn) : frames proj P (throw (A := A) e).
Proof. intros s. apply quiet_refl. Qed.

Lemma frames_gets {A} (f : S -> A) : frames proj P (gets f).
Proof. intros s. apply quiet_refl. Qed.

Lemma frames_modify (f : S -> S) :
  (forall s, quiet P (proj s) (proj (f s))) -> frames proj P (modify f).
Proof. intros H s. apply H. Qed.

Lemma frames_bind {A B} (m : M S A) (k : A -> M S B) :
  frames proj P m -> (forall a, frames proj P (k a)) ->
  frames proj P (bind m k).
Proof.
  intros Hm Hk s. unfold bind.
  specialize (Hm s). destruct (m s) as [[a|e] s1]; cbn in *.
  - eapply quiet_trans; [exact Hm | apply Hk].
  - exact Hm.
Qed.

End Frames.

Lemma quiet_weaken (P Q : Event -> Prop) (w w' : World) :
  (forall e, P e -> Q e) -> quiet P w w' -> quiet Q w w'.
Proof.
  intros HPQ (Hs & Hl & Ho & evs & Ht & Hp).
  repeat split; try assumption.
  exists evs. split; [assumption|].
  eapply Forall_impl; eauto.
Qed.

Lemma quiet_events (P : Event -> Prop) (w w' : World) :
  quiet P w w' -> Forall P (events_since w w').
Proof.
  intros (_ & _ & _ & evs & Ht & Hp).
  by rewrite (events_since_app w w' evs Ht).
Qed.

Create HintDb frames discriminated.

#[local] Hint Resolve frames_ret frames_throw frames_gets quiet_refl : frames.
#[local] Hint Extern 1 (frames _ _ (bind _ _)) =>
  apply frames_bind; [|intros] : frames.
#[local] Hint Extern 1 (frames _ _ (modify _)) =>
  apply frames_modify; intros : frames.
#[local] Hint Extern 1 (quiet _ _ (emit _ _)) =>
  apply quiet_emit; reflexivity : frames.
#[local] Hint Extern 2 (quiet _ _ _) =>
  apply quiet_same; reflexivity : frames.
#[local] Hint Extern 3 (frames _ _ (match ?x with _ => _ end)) =>
  destruct x : frames.

Ltac frame := auto 30 with frames.

Section EngineFrames.
Context (env : Env).

Lemma frames_in_world_emit (e : Event) :
  is_transaction_event e = true -> (frames snd transaction_event) (in_world (emit e)).
Proof.
  intros He. apply frames_modify. intros s. by apply quiet_emit.
Qed.

Lemma frames_set_tx (t : Transaction) : (frames snd transaction_event) (set_tx t).
Proof. unfold set_tx. frame. Qed.

Lemma frames_require_state (op : string) (st : TxState) :
  (frames snd transaction_event) (require_state op st).
Proof. unfold require_state, the_tx. frame. Qed.

Hint Resolve frames_set_tx frames_require_state : frames.
Hint Extern 1 (frames _ _ (in_world (emit _))) =>
  apply frames_in_world_emit; reflexivity : frames.

Lemma frames_createSnapshot (base : string) : (frames snd transaction_event) (createSnapshot env base).
Proof.
  unfold createSnapshot, the_world. apply frames_bind; [frame|]. intros w.
  destruct (new_snapshot env); [destruct (snaps w !! s)|]; frame.
  apply frames_bind; [|frame]. apply frames_modify. intros s0.
  eapply quiet_trans; [|apply quiet_emit; reflexivity].
  by apply quiet_same.
Qed.

Lemma frames_mountPathOf (id : string) : (frames snd transaction_event) (mountPathOf env id).
Proof.
  unfold mountPathOf, the_world. apply frames_bind; [frame|]. intros w.
  destruct (snaps w !! id) as [[|]|]; frame.
Qed.

Lemma frames_setDefault (id : string) : (frames snd transaction_event) (setDefault env id).
Proof.
  unfold setDefault. destruct (setDefault_ok env); [|frame].
  apply frames_modify. intros s0.
  eapply quiet_trans; [|apply quiet_emit; reflexivity].
  by apply quiet_same.
Qed.

Lemma frames_spawn (e : Event) :
  is_transaction_event e = true -> (frames snd transaction_event) (spawn env e).
Proof.
  intros He. unfold spawn. apply frames_bind.
  - by apply frames_in_world_emit.
  - intros _. destruct (child_status env); frame.
Qed.

Hint Resolve frames_createSnapshot frames_mountPathOf frames_setDefault
  : frames.
Hint Extern 1 (frames _ _ (spawn _ _)) =>
  apply frames_spawn; reflexivity : frames.

Lemma frames_init (base : string) : (frames snd transaction_event) (init env base).
Proof. unfold init. frame. Qed.

Lemma frames_resume (id : string) : (frames snd transaction_event) (resume env id).
Proof. unfold resume. frame. Qed.

Lemma frames_execute (argv : list string) : (frames snd transaction_event) (execute env argv).
Proof. unfold execute. frame. Qed.

Lemma frames_callExt (argv : list string) : (frames snd transaction_event) (callExt env argv).
Proof. unfold callExt. frame. Qed.

Lemma frames_finalize : (frames snd transaction_event) (finalize env).
Proof. unfold finalize. frame. Qed.

Lemma frames_keep : (frames snd transaction_event) keep.
Proof. unfold keep. frame. Qed.

Lemma frames_getSnapshot : (frames snd transaction_event) getSnapshot.
Proof. unfold getSnapshot, the_tx. frame. Qed.

Lemma frames_stdout (text : string) : (frames snd transaction_event) (cout on_snd text).
Proof. unfold cout. frame. Qed.

Hint Resolve frames_init frames_resume frames_execute frames_callExt
  frames_finalize frames_keep frames_getSnapshot frames_stdout : frames.

Lemma frames_processCommand_body (argv : list string) :
  (frames snd transaction_event) (processCommand_body env argv).
Proof.
  unfold processCommand_body, displayHelp, string_of_ptr.
  destruct (argv !! 0%nat) as [arg|]; [|frame].
  repeat (destruct (decide _); [frame|]).
  frame.
Qed.

Lemma quiet_Transaction_dtor (s : Transaction * World) :
  quiet transaction_event (snd s) (snd (Transaction_dtor s)).
Proof.
  destruct s as [t w]. unfold Transaction_dtor, deleteSnapshot.
  cbn [fst snd].
  destruct (tx_state t), (tx_retain t); cbn [snd];
    try (by apply quiet_emit).
  eapply quiet_trans; [by apply (quiet_emit _ Dispose)|].
  eapply quiet_trans; [|by apply quiet_emit].
  by apply quiet_same.
Qed.

(** [processCommand] adds only transaction events to the trace and
    leaves the signal table and the lock file alone. *)
Lemma quiet_processCommand (argv : list string) (w : World) :
  quiet transaction_event w (snd (processCommand env argv w)).
Proof.
  unfold processCommand, finally.
  pose proof (frames_processCommand_body argv (Transaction_new, w)) as H.
  destruct (processCommand_body env argv (Transaction_new, w)) as [r s].
  cbn [snd] in *.
  eapply quiet_trans; [exact H | apply quiet_Transaction_dtor].
Qed.

(** Option parsing adds nothing to the trace. *)
Lemma frames_parseOptions_loop (rs : list GetoptRet) (optind : Z) :
  frames (fun w => w) (fun _ => False) (parseOptions_loop env rs optind).
Proof.
  induction rs as [|[c optarg] rs IH]; cbn [parseOptions_loop]; [frame|].
  unfold displayHelp, cout, on_world.
  repeat (destruct (decide _); [frame|]).
  frame.
Qed.

Lemma parseOptions_trace (argv : list string) (w : World) :
  quiet (fun _ => False) w (snd (parseOptions env argv w)).
Proof.
  unfold parseOptions. destruct (getopt_scan _ _) as [rs optind].
  apply frames_parseOptions_loop.
Qed.

End EngineFrames.

(** ** The constructor: signals, lock, command *)

Section Constructor.
Context (env : Env).

(** The constructor, split at the end of option parsing. *)
Lemma TUKit_startup (argv : list string) (w : World) :
  TUKit env argv w =
  match startup env argv w with
  | (Ok r, w1) =>
      if decide (r <= 0) then (Throw (thrown_int r), w1)
      else
        match Lock_ctor env w1 with
        | (Ok lock, w2) =>
            finally (locked_part env argv r) (Lock_dtor lock) w2
        | (Throw e, w2) => (Throw e, w2)
        end
  | (Throw e, w1) => (Throw e, w1)
  end.
Proof.
  unfold TUKit, startup, bind, signal, modify.
  destruct (parseOptions env argv _) as [[r|e] w1]; [|reflexivity].
  destruct (decide (r <= 0)); reflexivity.
Qed.

(** Option parsing always returns: it never throws. *)
Lemma parseOptions_returns (argv : list string) (w : World) :
  exists r, fst (parseOptions env argv w) = Ok r.
Proof.
  unfold parseOptions. destruct (getopt_scan _ _) as [rs optind].
  revert w. induction rs as [|[c optarg] rs IH]; intros w;
    cbn [parseOptions_loop].
  - by eexists.
  - unfold bind, modify, displayHelp, cout, ret.
    repeat (destruct (decide _); [first [by eexists | apply IH]|]).
    apply IH.
Qed.

(** Startup installs the four handlers, in this order, and does nothing
    else that the trace, the signal table or the lock file would show. *)
Lemma startup_effect (argv : list string) (w : World) :
  trace (snd (startup env argv w)) =
    (trace w ++ [EvSignal SIGINT; EvSignal SIGHUP; EvSignal SIGQUIT;
                 EvSignal SIGTERM])%list /\
  sigtable (snd (startup env argv w)) =
    (SIGTERM, Handler_interrupt) :: (SIGQUIT, Handler_interrupt) ::
    (SIGHUP, Handler_interrupt) :: (SIGINT, Handler_interrupt) :: sigtable w /\
  lockfile_exists (snd (startup env argv w)) = lockfile_exists w /\
  lock_owned (snd (startup env argv w)) = lock_owned w /\
  exists r, fst (startup env argv w) = Ok r.
Proof.
  unfold startup, bind, signal, modify.
  match goal with
  | |- context [parseOptions env argv ?w0] =>
      pose proof (parseOptions_trace env argv w0)
        as (Hs & Hl & Ho & evs & Ht & Hp);
      pose proof (parseOptions_returns argv w0) as Hr
  end.
  destruct Hp as [|x l []].
  rewrite Hs, Hl, Ho, Ht. world_fields.
  repeat split; try assumption.
  rewrite app_nil_r. by repeat rewrite <- app_assoc.
Qed.

End Constructor.

Section Locking.
Context (env : Env).

(** The three ways [Lock::Lock] can go. *)
Lemma Lock_ctor_cases (w : World) :
  Lock_ctor env w =
  if open_ok env then
    if lock_held_by_other env then (Throw (already_running env), after_refusal w)
    else (Ok (mkLock 3), after_acquire w)
  else (Throw (cannot_create env), emit (EvOpenLockfile false) w).
Proof.
  unfold Lock_ctor, open_lockfile, lockf_tlock, bind.
  destruct (open_ok env); [|reflexivity].
  destruct (lock_held_by_other env); reflexivity.
Qed.

Lemma quiet_locked_part (argv : list string) (r : Z) (w : World) :
  quiet transaction_event w (snd (locked_part env argv r w)).
Proof.
  assert (Hcmd : forall args,
            frames (fun w => w) transaction_event (processCommand env args)).
  { intros args w0. apply quiet_processCommand. }
  assert (H : frames (fun w => w) transaction_event (locked_part env argv r)).
  { unfold locked_part, tulog_info. frame. }
  apply H.
Qed.

(** Once the lock is taken, every way out of the constructor, with or
    without an exception, closes and removes the lock file. *)
Lemma lock_released_on_exit (argv : list string) (w w1 : World) (r : Z) :
  startup env argv w = (Ok r, w1) ->
  0 < r ->
  open_ok env = true ->
  lock_held_by_other env = false ->
  exists evs,
    events_since w1 (snd (TUKit env argv w)) =
      ([EvOpenLockfile true; EvLockf true] ++ evs
       ++ [EvCloseLockfile; EvRemoveLockfile])%list /\
    Forall transaction_event evs /\
    lockfile_exists (snd (TUKit env argv w)) = false /\
    lock_owned (snd (TUKit env argv w)) = false.
Proof.
  intros Hstart Hr Hopen Hfree.
  rewrite TUKit_startup, Hstart.
  destruct (decide (r <= 0)); [lia|].
  rewrite Lock_ctor_cases, Hopen, Hfree. unfold finally.
  pose proof (quiet_locked_part argv r (after_acquire w1))
    as (_ & _ & _ & evs & Ht & Hp).
  destruct (locked_part env argv r (after_acquire w1)) as [res w2].
  cbn [snd] in *. exists evs. repeat split; try assumption.
  apply events_since_app. unfold Lock_dtor. world_fields.
  rewrite Ht. unfold after_acquire, after_open. world_fields.
  by repeat rewrite <- app_assoc.
Qed.

End Locking.

(** ** The lock and the signals *)

(** C7. When the second instance finds the lock taken, [Lock::Lock]
    throws before its [remove] is reached and the destructor never runs:
    the run ends right after the refused [lockf], with the lock file
    still in place. *)
Theorem failed_acquisition_keeps_lockfile
    (env : Env) (argv : list string) (w w1 : World) (r : Z) :
  startup env argv w = (Ok r, w1) ->
  0 < r ->
  open_ok env = true ->
  lock_held_by_other env = true ->
  exists w',
    TUKit env argv w = (Throw (already_running env), w') /\
    events_since w1 w' = [EvOpenLockfile true; EvLockf false] /\
    lockfile_exists w' = true.
Proof.
  intros Hstart Hr Hopen Hheld.
  rewrite TUKit_startup, Hstart.
  destruct (decide (r <= 0)); [lia|].
  rewrite Lock_ctor_cases, Hopen, Hheld.
  eexists. split; [reflexivity|]. split; [|reflexivity].
  unfold after_refusal, after_open. trace_eq.
Qed.

Lemma failed_acquisition_keeps_lockfile_witness :
  exists w',
    TUKit (sample_env true true (Some 0)) ["tukit"; "execute"; "true"]
      sample_world
      = (Throw (runtime_error
           "Another instance of tukit is already running: Resource temporarily unavailable"),
         w') /\
    events_since
      (snd (startup (sample_env true true (Some 0))
              ["tukit"; "execute"; "true"] sample_world)) w'
      = [EvOpenLockfile true; EvLockf false] /\
    lockfile_exists w' = true.
Proof.
  apply (failed_acquisition_keeps_lockfile (sample_env true true (Some 0))
           ["tukit"; "execute"; "true"] sample_world _ 1);
    [reflexivity | lia | reflexivity | reflexivity].
Defined.

(** C9. While another instance holds the lock, the constructor never
    completes and never gets to [processCommand]: the trace holds no call
    into the transaction and no snapshot operation.  A run whose options
    lead to a command fails with the already-running error as soon as
    [lockf] is refused. *)
Theorem second_instance_does_nothing
    (env : Env) (argv : list string) (w : World) :
  lock_held_by_other env = true ->
  (exists e, fst (TUKit env argv w) = Throw e) /\
  Forall (fun ev => is_transaction_event ev = false /\ is_snapshot_op ev = false)
    (events_since w (snd (TUKit env argv w))) /\
  (forall r w1,
     startup env argv w = (Ok r, w1) -> 0 < r -> open_ok env = true ->
     fst (TUKit env argv w) = Throw (already_running env)).
Proof.
  intros Hheld.
  pose proof (startup_effect env argv w) as (Ht & _ & _ & _ & r0 & Hr0).
  rewrite TUKit_startup.
  destruct (startup env argv w) as [res w1]. cbn [fst snd] in *. subst res.
  destruct (decide (r0 <= 0)) as [Hle|Hgt].
  - cbn [fst snd]. split; [by eexists|]. split.
    + rewrite (events_since_app _ _ _ Ht). by repeat constructor.
    + intros r w2 [= -> ->]. lia.
  - rewrite Lock_ctor_cases, Hheld.
    destruct (open_ok env); cbn [fst snd].
    + split; [by eexists|]. split.
      * erewrite events_since_app.
        2:{ unfold after_refusal, after_open. world_fields. rewrite Ht.
            repeat rewrite <- app_assoc. reflexivity. }
        by repeat constructor.
      * reflexivity.
    + split; [by eexists|]. split.
      * erewrite events_since_app.
        2:{ world_fields. rewrite Ht.
            repeat rewrite <- app_assoc. reflexivity. }
        by repeat constructor.
      * intros; discriminate.
Qed.

Lemma second_instance_does_nothing_witness :
  fst (TUKit (sample_env true true (Some 0)) ["tukit"; "abort"; "3"]
         sample_world)
    = Throw (already_running (sample_env true true (Some 0))) /\
  Forall (fun ev => is_transaction_event ev = false /\ is_snapshot_op ev = false)
    (events_since sample_world
       (snd (TUKit (sample_env true true (Some 0)) ["tukit"; "abort"; "3"]
               sample_world))).
Proof.
  destruct (second_instance_does_nothing (sample_env true true (Some 0))
              ["tukit"; "abort"; "3"] sample_world eq_refl)
    as (_ & Hev & Hfail).
  split; [|exact Hev].
  eapply Hfail; [reflexivity | lia | reflexivity].
Defined.

(** C10. In every run the first four events are the installation of
    [interrupt] for SIGINT, SIGHUP, SIGQUIT and SIGTERM, ahead of the lock
    and of every transaction event, and no handler is installed after
    them.  From then on each of the four signals only adds a debug line
    to the log; the process goes on. *)
Theorem signal_handlers_installed_first
    (env : Env) (argv : list string) (w : World) :
  (exists rest,
     events_since w (snd (TUKit env argv w)) =
       ([EvSignal SIGINT; EvSignal SIGHUP; EvSignal SIGQUIT; EvSignal SIGTERM]
        ++ rest)%list /\
     Forall not_signal_event rest) /\
  deliver SIGINT (snd (TUKit env argv w)) =
    Continues (add_log DEBUG "tukit: Received signal 2" (snd (TUKit env argv w))) /\
  deliver SIGHUP (snd (TUKit env argv w)) =
    Continues (add_log DEBUG "tukit: Received signal 1" (snd (TUKit env argv w))) /\
  deliver SIGQUIT (snd (TUKit env argv w)) =
    Continues (add_log DEBUG "tukit: Received signal 3" (snd (TUKit env argv w))) /\
  deliver SIGTERM (snd (TUKit env argv w)) =
    Continues (add_log DEBUG "tukit: Received signal 15" (snd (TUKit env argv w))).
Proof.
  pose proof (startup_effect env argv w) as (Ht & Hs & _ & _ & r0 & Hr0).
  assert (Hsig : forall w', sigtable w' = sigtable (snd (startup env argv w)) ->
            deliver SIGINT w' = Continues (add_log DEBUG "tukit: Received signal 2" w') /\
            deliver SIGHUP w' = Continues (add_log DEBUG "tukit: Received signal 1" w') /\
            deliver SIGQUIT w' = Continues (add_log DEBUG "tukit: Received signal 3" w') /\
            deliver SIGTERM w' = Continues (add_log DEBUG "tukit: Received signal 15" w')).
  { intros w' Hw'. unfold deliver, disposition. rewrite Hw', Hs.
    repeat split. }
  assert (Hsplit : forall w' evs,
            trace w' = (trace (snd (startup env argv w)) ++ evs)%list ->
            Forall not_signal_event evs ->
            exists rest,
              events_since w w' =
                ([EvSignal SIGINT; EvSignal SIGHUP; EvSignal SIGQUIT;
                  EvSignal SIGTERM] ++ rest)%list /\
              Forall not_signal_event rest).
  { intros w' evs Hw' Hevs. exists evs. split; [|assumption].
    apply events_since_app. rewrite Hw', Ht. by rewrite <- app_assoc. }
  rewrite TUKit_startup.
  destruct (startup env argv w) as [res w1]. cbn [fst snd] in *. subst res.
  destruct (decide (r0 <= 0)) as [Hle|Hgt].
  { cbn [fst snd]. split; [|by apply Hsig].
    apply (Hsplit w1 []); [by rewrite app_nil_r | constructor]. }
  rewrite Lock_ctor_cases.
  destruct (open_ok env); [destruct (lock_held_by_other env)|]; cbn [fst snd].
  - split; [|by apply Hsig].
    apply (Hsplit _ [EvOpenLockfile true; EvLockf false]).
    + unfold after_refusal, after_open. world_fields.
      by rewrite <- app_assoc.
    + repeat constructor; intros s; discriminate.
  - unfold finally.
    pose proof (quiet_locked_part env argv r0 (after_acquire w1))
      as (Hs2 & _ & _ & evs & Ht2 & Hp2).
    destruct (locked_part env argv r0 (after_acquire w1)) as [res w2].
    cbn [snd] in *.
    split; [|apply Hsig; unfold Lock_dtor; world_fields; by rewrite Hs2].
    apply (Hsplit _ ([EvOpenLockfile true; EvLockf true] ++ evs
                     ++ [EvCloseLockfile; EvRemoveLockfile])%list).
    + unfold Lock_dtor. world_fields. rewrite Ht2.
      unfold after_acquire, after_open. world_fields.
      by repeat rewrite <- app_assoc.
    + cbn [app]. repeat (constructor; [intros s; discriminate|]).
      apply Forall_app_2; [|repeat constructor; intros s; discriminate].
      eapply Forall_impl; [exact Hp2|].
      intros ev Hev s ->. discriminate Hev.
  - split; [|by apply Hsig].
    apply (Hsplit _ [EvOpenLockfile false]).
    + reflexivity.
    + repeat constructor; intros s; discriminate.
Qed.

(** ** More about the commands *)

Lemma dispatch_open (env : Env) (rest : list string) :
  processCommand_body env ("open" :: rest) =
  (base <- gets (fun s => baseSnapshot (snd s)) ;;
   init env base ;;
   id <- getSnapshot ;;
   cout on_snd ("ID: " +:+ id +:+ LF) ;;
   keep ;;
   ret 0).
Proof. reflexivity. Qed.

(** [open] creates a snapshot, prints its id on a line of its own, keeps
    the transaction and returns 0: the snapshot is in the store as one in
    progress, nothing is deleted and the default snapshot stays.  Further
    arguments are ignored. *)
Theorem open_prints_and_keeps
    (env : Env) (w : World) (rest : list string) (id : string) :
  new_snapshot env = Some id ->
  snaps w !! id = None ->
  exists w',
    processCommand env ("open" :: rest) w = (Ok 0, w') /\
    events_since w w' =
      [ CallInit (baseSnapshot w); StoreCreate (baseSnapshot w) (Some id);
        CallGetSnapshot; CallKeep; Dispose ] /\
    stdout w' = (stdout w ++ ["ID: " +:+ id +:+ LF])%list /\
    snaps w' = <[id := InProgress]> (snaps w) /\
    default_snapshot w' = default_snapshot w.
Proof.
  intros Hnew Hfresh.
  unfold processCommand. rewrite dispatch_open.
  run_engine. world_fields. rewrite Hnew, Hfresh.
  run_engine. world_fields.
  eexists. split; [reflexivity|]. world_fields.
  split; [trace_eq|]. repeat split.
Qed.

Lemma open_prints_and_keeps_witness :
  exists w',
    processCommand (sample_env false true None) ["open"] sample_world
      = (Ok 0, w') /\
    events_since sample_world w' =
      [ CallInit "default"; StoreCreate "default" (Some "7");
        CallGetSnapshot; CallKeep; Dispose ] /\
    stdout w' = ([] ++ ["ID: " +:+ "7" +:+ LF])%list /\
    snaps w' = <["7" := InProgress]> (snaps sample_world) /\
    default_snapshot w' = "1".
Proof.
  apply (open_prints_and_keeps (sample_env false true None) sample_world
           [] "7"); reflexivity.
Defined.

(** [close] on an open transaction with a setDefault that succeeds:
    resume, finalize, return 0.  The snapshot is the default one and a
    regular snapshot from then on; nothing is deleted. *)
Theorem close_promotes
    (env : Env) (w : World) (id : string) (rest : list string) :
  id <> EmptyString ->
  snaps w !! id = Some InProgress ->
  setDefault_ok env = true ->
  exists w',
    processCommand env ("close" :: id :: rest) w = (Ok 0, w') /\
    events_since w w' =
      [ CallResume id; StoreMountPathOf id true; CallFinalize;
        StoreSetDefault id true; Dispose ] /\
    default_snapshot w' = id /\
    snaps w' = <[id := Regular]> (snaps w).
Proof.
  intros Hid Hopen Hdef.
  unfold processCommand. rewrite dispatch_close.
  run_engine. world_fields. cbn [lookup list_lookup].
  destruct (decide (id = EmptyString)) as [E|_]; [contradiction|].
  run_engine. world_fields. rewrite Hopen, Hdef. run_engine. world_fields.
  eexists. split; [reflexivity|]. world_fields.
  split; [trace_eq|]. split; reflexivity.
Qed.

Lemma close_promotes_witness :
  exists w',
    processCommand (sample_env false true None) ["close"; "3"] sample_world
      = (Ok 0, w') /\
    events_since sample_world w' =
      [ CallResume "3"; StoreMountPathOf "3" true; CallFinalize;
        StoreSetDefault "3" true; Dispose ] /\
    default_snapshot w' = "3" /\
    snaps w' = <["3" := Regular]> (snaps sample_world).
Proof.
  apply (close_promotes (sample_env false true None) sample_world "3" []);
    [discriminate | reflexivity | reflexivity].
Defined.

(** A lookup that does not find an open transaction takes the failing
    branch of [mountPathOf]. *)
Lemma not_in_progress_branch (w : World) (id : string) :
  snaps w !! id <> Some InProgress ->
  forall A (a b : A),
    match snaps w !! id with
    | Some InProgress => a
    | _ => b
    end = b.
Proof.
  intros Hunknown A a b. destruct (snaps w !! id) as [[|]|]; congruence.
Qed.

(** Runs a resuming command whose id is refused, given the dispatch
    equation of the command. *)
Ltac run_refused dispatch Hid Hunknown :=
  unfold processCommand; rewrite dispatch; run_engine; world_fields;
  cbn [lookup list_lookup];
  match goal with
  | |- context [decide (?id = EmptyString)] =>
      destruct (decide (id = EmptyString)) as [?|_]; [contradiction|]
  end;
  run_engine; world_fields;
  rewrite (not_in_progress_branch _ _ Hunknown).

(** A resume of an id that is not an open transaction of the store:
    [call], [callext], [close] and [abort] all end in
    UnknownTransactionError right after the failed lookup.  No child is
    run, and store and default snapshot are as before. *)
Theorem unknown_id_is_refused
    (env : Env) (w : World) (id : string) (cmd : list string) :
  id <> EmptyString ->
  snaps w !! id <> Some InProgress ->
  Forall (fun command =>
    exists w',
      processCommand env (command :: id :: cmd) w
        = (Throw (UnknownTransactionError id), w') /\
      events_since w w' = [CallResume id; StoreMountPathOf id false; Dispose] /\
      snaps w' = snaps w /\
      default_snapshot w' = default_snapshot w)
    ["call"; "callext"; "close"; "abort"].
Proof.
  intros Hid Hunknown.
  repeat constructor.
  - run_refused dispatch_call Hid Hunknown.
    eexists. split; [reflexivity|]. world_fields.
    split; [trace_eq|]. split; reflexivity.
  - run_refused dispatch_callext Hid Hunknown.
    eexists. split; [reflexivity|]. world_fields.
    split; [trace_eq|]. split; reflexivity.
  - run_refused dispatch_close Hid Hunknown.
    eexists. split; [reflexivity|]. world_fields.
    split; [trace_eq|]. split; reflexivity.
  - run_refused dispatch_abort Hid Hunknown.
    eexists. split; [reflexivity|]. world_fields.
    split; [trace_eq|]. split; reflexivity.
Qed.

Lemma unknown_id_is_refused_witness :
  Forall (fun command =>
    exists w',
      processCommand (sample_env false true (Some 0))
        (command :: "9" :: ["true"]) sample_world
        = (Throw (UnknownTransactionError "9"), w') /\
      events_since sample_world w'
        = [CallResume "9"; StoreMountPathOf "9" false; Dispose] /\
      snaps w' = snaps sample_world /\
      default_snapshot w' = default_snapshot sample_world)
    ["call"; "callext"; "close"; "abort"].
Proof.
  apply (unknown_id_is_refused (sample_env false true (Some 0)) sample_world
           "9" ["true"]); [discriminate | discriminate].
Defined.

(** When the backend cannot create a snapshot, [execute] and [open] end
    in SnapshotCreationError before anything else happens: no child is
    run, nothing is printed, and there is nothing to delete. *)
Theorem creation_failure_stops
    (env : Env) (w : World) (rest : list string) :
  new_snapshot env = None ->
  Forall (fun command =>
    exists w',
      processCommand env (command :: rest) w = (Throw SnapshotCreationError, w') /\
      events_since w w' =
        [ CallInit (baseSnapshot w); StoreCreate (baseSnapshot w) None;
          Dispose ] /\
      snaps w' = snaps w /\
      default_snapshot w' = default_snapshot w /\
      stdout w' = stdout w)
    ["execute"; "open"].
Proof.
  intros Hnew. repeat constructor.
  - unfold processCommand. rewrite dispatch_execute.
    run_engine. world_fields. rewrite Hnew. run_engine. world_fields.
    eexists. split; [reflexivity|]. world_fields.
    split; [trace_eq|]. repeat split.
  - unfold processCommand. rewrite dispatch_open.
    run_engine. world_fields. rewrite Hnew. run_engine. world_fields.
    eexists. split; [reflexivity|]. world_fields.
    split; [trace_eq|]. repeat split.
Qed.

Lemma creation_failure_stops_witness :
  Forall (fun command =>
    exists w',
      processCommand
        (mkEnv "/var/run/tukit.lock" "3.1.0" true false "No space left on device"
           None sample_mount_path true (Some 0))
        (command :: ["true"]) sample_world
        = (Throw SnapshotCreationError, w') /\
      events_since sample_world w' =
        [ CallInit "default"; StoreCreate "default" None; Dispose ] /\
      snaps w' = snaps sample_world /\
      default_snapshot w' = default_snapshot sample_world /\
      stdout w' = stdout sample_world)
    ["execute"; "open"].
Proof.
  apply (creation_failure_stops
           (mkEnv "/var/run/tukit.lock" "3.1.0" true false
              "No space left on device" None sample_mount_path true (Some 0))
           sample_world ["true"]).
  reflexivity.
Defined.

(** When the process runner fails instead of returning an exit status,
    its error leaves [processCommand] unchanged.  For [execute] the
    destructor finds the new transaction neither finalized nor kept and
    deletes its snapshot: the store is as before.  For [call] and
    [callext] the [keep] that follows the command in the source is never
    reached, and neither is a finalize. *)
Theorem runner_failure_propagates
    (env : Env) (w : World) (cmd : list string) :
  child_status env = None ->
  (forall id,
     new_snapshot env = Some id ->
     snaps w !! id = None ->
     exists w',
       processCommand env ("execute" :: cmd) w = (Throw ProcessRunnerError, w') /\
       events_since w w' =
         [ CallInit (baseSnapshot w); StoreCreate (baseSnapshot w) (Some id);
           CallExecute cmd; RunChroot (mount_path env id) (program_of cmd);
           Dispose; StoreDelete id ] /\
       snaps w' = snaps w) /\
  (forall id,
     id <> EmptyString ->
     snaps w !! id = Some InProgress ->
     Forall (fun command =>
       exists w',
         processCommand env (command :: id :: cmd) w
           = (Throw ProcessRunnerError, w') /\
         ~ In CallKeep (events_since w w') /\
         ~ In CallFinalize (events_since w w'))
       ["call"; "callext"]).
Proof.
  intros Hchild. split.
  - intros id Hnew Hfresh.
    unfold processCommand. rewrite dispatch_execute.
    run_engine. world_fields. rewrite Hnew, Hfresh, Hchild.
    run_engine. world_fields.
    eexists. split; [reflexivity|]. world_fields.
    split; [trace_eq|]. by apply delete_insert_id.
  - intros id Hid Hopen. repeat constructor.
    + unfold processCommand. rewrite dispatch_call. run_engine. world_fields.
      destruct (decide (id = EmptyString)) as [E|_]; [contradiction|].
      run_engine. world_fields. rewrite Hopen, Hchild. run_engine. world_fields.
      eexists. split; [reflexivity|].
      erewrite events_since_app
        by (world_fields; repeat rewrite <- app_assoc; reflexivity).
      split; intros Hin; cbn [app In] in Hin;
        repeat (destruct Hin as [Hin|Hin]; [discriminate Hin|]);
        exact Hin.
    + unfold processCommand. rewrite dispatch_callext. run_engine. world_fields.
      destruct (decide (id = EmptyString)) as [E|_]; [contradiction|].
      run_engine. world_fields. rewrite Hopen, Hchild. run_engine. world_fields.
      eexists. split; [reflexivity|].
      erewrite events_since_app
        by (world_fields; repeat rewrite <- app_assoc; reflexivity).
      split; intros Hin; cbn [app In] in Hin;
        repeat (destruct Hin as [Hin|Hin]; [discriminate Hin|]);
        exact Hin.
Qed.

Lemma runner_failure_propagates_witness :
  exists w',
    processCommand (sample_env false true None) ["execute"; "zypper"; "up"]
      sample_world = (Throw ProcessRunnerError, w') /\
    events_since sample_world w' =
      [ CallInit "default"; StoreCreate "default" (Some "7");
        CallExecute ["zypper"; "up"];
        RunChroot "/.snapshots/7/snapshot" (Command ["zypper"; "up"]);
        Dispose; StoreDelete "7" ] /\
    snaps w' = snaps sample_world.
Proof.
  apply (runner_failure_propagates (sample_env false true None) sample_world
           ["zypper"; "up"]); reflexivity.
Defined.

(** ** One process after another *)

(** A process runs [open], a later one runs [close] with the id that was
    printed: the snapshot [open] created is then the default snapshot and
    a regular one, and neither process deleted anything. *)
Theorem open_then_close_promotes
    (env1 env2 : Env) (w : World) (id : string) :
  new_snapshot env1 = Some id ->
  snaps w !! id = None ->
  id <> EmptyString ->
  setDefault_ok env2 = true ->
  exists w1 w2,
    processCommand env1 ["open"] w = (Ok 0, w1) /\
    processCommand env2 ["close"; id] w1 = (Ok 0, w2) /\
    stdout w1 = (stdout w ++ ["ID: " +:+ id +:+ LF])%list /\
    default_snapshot w2 = id /\
    snaps w2 = <[id := Regular]> (snaps w) /\
    events_since w w2 =
      [ CallInit (baseSnapshot w); StoreCreate (baseSnapshot w) (Some id);
        CallGetSnapshot; CallKeep; Dispose;
        CallResume id; StoreMountPathOf id true; CallFinalize;
        StoreSetDefault id true; Dispose ].
Proof.
  intros Hnew Hfresh Hid Hdef.
  do 2 eexists. split; [|split].
  - unfold processCommand. rewrite dispatch_open.
    run_engine. world_fields. rewrite Hnew, Hfresh.
    run_engine. world_fields. reflexivity.
  - unfold processCommand. rewrite dispatch_close.
    run_engine. world_fields. cbn [lookup list_lookup].
    destruct (decide (id = EmptyString)) as [E|_]; [contradiction|].
    run_engine. world_fields. rewrite lookup_insert_eq, Hdef.
    run_engine. world_fields. reflexivity.
  - world_fields. split; [reflexivity|]. split; [reflexivity|].
    split; [apply insert_insert_eq | trace_eq].
Qed.

Lemma open_then_close_promotes_witness :
  exists w1 w2,
    processCommand (sample_env false true None) ["open"] sample_world
      = (Ok 0, w1) /\
    processCommand (sample_env false true None) ["close"; "7"] w1 = (Ok 0, w2) /\
    stdout w1 = ([] ++ ["ID: " +:+ "7" +:+ LF])%list /\
    default_snapshot w2 = "7" /\
    snaps w2 = <["7" := Regular]> (snaps sample_world) /\
    events_since sample_world w2 =
      [ CallInit "default"; StoreCreate "default" (Some "7");
        CallGetSnapshot; CallKeep; Dispose;
        CallResume "7"; StoreMountPathOf "7" true; CallFinalize;
        StoreSetDefault "7" true; Dispose ].
Proof.
  apply (open_then_close_promotes (sample_env false true None)
           (sample_env false true None) sample_world "7");
    [reflexivity | reflexivity | discriminate | reflexivity].
Defined.

(** Once [close] returned 0 for an id, the transaction is over: every
    later [call], [callext], [close] or [abort] of that id ends in
    UnknownTransactionError and changes nothing. *)
Theorem closed_transaction_is_gone
    (env1 env2 : Env) (w w1 : World) (id : string) (rest cmd : list string) :
  processCommand env1 ("close" :: id :: rest) w = (Ok 0, w1) ->
  Forall (fun command =>
    exists w2,
      processCommand env2 (command :: id :: cmd) w1
        = (Throw (UnknownTransactionError id), w2) /\
      snaps w2 = snaps w1 /\
      default_snapshot w2 = default_snapshot w1)
    ["call"; "callext"; "close"; "abort"].
Proof.
  intros Hclosed.
  assert (Hgone : id <> EmptyString /\ snaps w1 !! id <> Some InProgress).
  { revert Hclosed. unfold processCommand.
    rewrite dispatch_close. run_engine. world_fields.
    cbn [lookup list_lookup].
    destruct (decide (id = EmptyString)) as [E|Hne];
      run_engine; world_fields; [discriminate|].
    destruct (snaps w !! id) as [[|]|]; run_engine; world_fields;
      try discriminate.
    destruct (setDefault_ok env1); run_engine; world_fields;
      try discriminate.
    intros [= <-]. world_fields. split; [assumption|].
    by rewrite lookup_insert_eq. }
  destruct Hgone as [Hid Hgone].
  repeat constructor.
  - run_refused dispatch_call Hid Hgone.
    eexists. split; [reflexivity|]. split; reflexivity.
  - run_refused dispatch_callext Hid Hgone.
    eexists. split; [reflexivity|]. split; reflexivity.
  - run_refused dispatch_close Hid Hgone.
    eexists. split; [reflexivity|]. split; reflexivity.
  - run_refused dispatch_abort Hid Hgone.
    eexists. split; [reflexivity|]. split; reflexivity.
Qed.

Lemma closed_transaction_is_gone_witness :
  Forall (fun command =>
    exists w2,
      processCommand (sample_env false true (Some 0))
        (command :: "3" :: ["true"])
        (snd (processCommand (sample_env false true None) ["close"; "3"]
                sample_world))
        = (Throw (UnknownTransactionError "3"), w2) /\
      snaps w2 =
        snaps (snd (processCommand (sample_env false true None)
                      ["close"; "3"] sample_world)) /\
      default_snapshot w2 =
        default_snapshot (snd (processCommand (sample_env false true None)
                                 ["close"; "3"] sample_world)))
    ["call"; "callext"; "close"; "abort"].
Proof.
  apply (closed_transaction_is_gone (sample_env false true None)
           (sample_env false true (Some 0)) sample_world _ "3" [] ["true"]).
  reflexivity.
Defined.

(** ** The transaction is disposed of exactly once *)

Section BodyFrames.
Context (env : Env).

Lemma body_emit (e : Event) :
  is_body_event e = true -> frames snd body_event (in_world (emit e)).
Proof.
  intros He. apply frames_modify. intros s. by apply quiet_emit.
Qed.

Hint Extern 1 (frames _ _ (in_world (emit _))) =>
  apply body_emit; reflexivity : frames.

Lemma body_set_tx (t : Transaction) : frames snd body_event (set_tx t).
Proof. unfold set_tx. frame. Qed.

Lemma body_require_state (op : string) (st : TxState) :
  frames snd body_event (require_state op st).
Proof. unfold require_state, the_tx. frame. Qed.

Lemma body_createSnapshot (base : string) :
  frames snd body_event (createSnapshot env base).
Proof.
  unfold createSnapshot, the_world. apply frames_bind; [frame|]. intros w.
  destruct (new_snapshot env); [destruct (snaps w !! s)|]; frame.
  apply frames_bind; [|frame]. apply frames_modify. intros s0.
  eapply quiet_trans; [|apply quiet_emit; reflexivity].
  by apply quiet_same.
Qed.

Lemma body_mountPathOf (id : string) :
  frames snd body_event (mountPathOf env id).
Proof.
  unfold mountPathOf, the_world. apply frames_bind; [frame|]. intros w.
  destruct (snaps w !! id) as [[|]|]; frame.
Qed.

Lemma body_setDefault (id : string) :
  frames snd body_event (setDefault env id).
Proof.
  unfold setDefault. destruct (setDefault_ok env); [|frame].
  apply frames_modify. intros s0.
  eapply quiet_trans; [|apply quiet_emit; reflexivity].
  by apply quiet_same.
Qed.

Lemma body_spawn (e : Event) :
  is_body_event e = true -> frames snd body_event (spawn env e).
Proof.
  intros He. unfold spawn. apply frames_bind.
  - by apply body_emit.
  - intros _. destruct (child_status env); frame.
Qed.

Hint Resolve body_set_tx body_require_state body_createSnapshot
  body_mountPathOf body_setDefault : frames.
Hint Extern 1 (frames _ _ (spawn _ _)) =>
  apply body_spawn; reflexivity : frames.

(** Nothing in the body of [processCommand] disposes of the transaction
    or deletes a snapshot. *)
Lemma body_processCommand_body (argv : list string) :
  frames snd body_event (processCommand_body env argv).
Proof.
  unfold processCommand_body, displayHelp, string_of_ptr, cout,
    init, resume, execute, callExt, finalize, keep, getSnapshot, the_tx.
  destruct (argv !! 0%nat) as [arg|]; [|frame].
  repeat (destruct (decide _); [frame|]).
  frame.
Qed.

End BodyFrames.

(** Every run of [processCommand], whatever the arguments and however it
    ends, disposes of its transaction exactly once, as the last thing it
    does.  Before that no snapshot is deleted; the disposal deletes at
    most one snapshot, which is then gone from the store. *)
Theorem processCommand_disposes_last
    (env : Env) (argv : list string) (w : World) :
  exists body,
    Forall body_event body /\
    (events_since w (snd (processCommand env argv w)) = (body ++ [Dispose])%list \/
     exists id,
       events_since w (snd (processCommand env argv w))
         = (body ++ [Dispose; StoreDelete id])%list /\
       snaps (snd (processCommand env argv w)) !! id = None).
Proof.
  unfold processCommand, finally.
  pose proof (body_processCommand_body env argv (Transaction_new, w))
    as (_ & _ & _ & body & Ht & Hbody).
  destruct (processCommand_body env argv (Transaction_new, w)) as [r [t w1]].
  cbn [snd] in *. exists body. split; [assumption|].
  unfold Transaction_dtor, deleteSnapshot. cbn [fst snd].
  destruct (tx_state t), (tx_retain t); cbn [snd];
    try (left; apply events_since_app; world_fields; rewrite Ht;
         by rewrite <- app_assoc).
  right. eexists. split.
  - apply events_since_app. world_fields. rewrite Ht.
    by repeat rewrite <- app_assoc.
  - world_fields. apply lookup_delete_eq.
Qed.

(** ** What [processCommand] returns *)

Section Returns.
Context {S : Type}.

Lemma returns_ret {A} (Q : A -> Prop) (a : A) :
  Q a -> returns (S := S) Q (ret a).
Proof. intros Ha s a' s' [= <- _]. exact Ha. Qed.

Lemma returns_throw {A} (Q : A -> Prop) (e : Exn) :
  returns (S := S) Q (throw e).
Proof. intros s a s' H. discriminate H. Qed.

Lemma returns_bind {A B} (Q1 : A -> Prop) (Q : B -> Prop)
    (m : M S A) (k : A -> M S B) :
  returns Q1 m -> (forall a, Q1 a -> returns Q (k a)) -> returns Q (bind m k).
Proof.
  intros Hm Hk s b s'. unfold bind.
  destruct (m s) as [[a|e] s1] eqn:E; [|discriminate].
  apply (Hk a); eauto.
Qed.

Lemma returns_any {A} (m : M S A) : returns (fun _ => True) m.
Proof. intros s a s' _. exact I. Qed.

Lemma returns_then {A B} (Q : B -> Prop) (m : M S A) (k : A -> M S B) :
  (forall a, returns Q (k a)) -> returns Q (bind m k).
Proof.
  intros Hk. apply (returns_bind (fun _ => True)); [apply returns_any|].
  intros a _. apply Hk.
Qed.

End Returns.

(** What [execute] and [callExt] return is the exit status of the child. *)
Lemma returns_child_status (env : Env) (e : Event) :
  returns (fun status => child_status env = Some status) (spawn env e).
Proof.
  unfold spawn. apply returns_then. intros _.
  destruct (child_status env) as [st|].
  - by apply returns_ret.
  - apply returns_throw.
Qed.

(** [processCommand] returns a number other than 0 only for [call] and
    [callext], and then it is the exit status of the child.  [execute],
    [open], [close] and [abort] return 0 or throw. *)
Theorem nonzero_return_is_child_status
    (env : Env) (argv : list string) (w w' : World) (n : Z) :
  processCommand env argv w = (Ok n, w') ->
  n <> 0 ->
  child_status env = Some n /\
  exists id cmd, argv = "call" :: id :: cmd \/ argv = "callext" :: id :: cmd.
Proof.
  intros Hrun Hn.
  assert (Hbody : returns
            (fun n => n <> 0 ->
               child_status env = Some n /\
               exists id cmd,
                 argv = "call" :: id :: cmd \/ argv = "callext" :: id :: cmd)
            (processCommand_body env argv)).
  { unfold processCommand_body.
    destruct argv as [|arg rest]; cbn [lookup list_lookup];
      [apply returns_throw|].
    assert (Hzero : forall (m : TxM Z),
              returns (fun n => n = 0) m ->
              returns
                (fun n => n <> 0 ->
                   child_status env = Some n /\
                   exists id cmd,
                     arg :: rest = "call" :: id :: cmd \/
                     arg :: rest = "callext" :: id :: cmd) m).
    { intros m Hm s a s' H Ha. apply Hm in H. contradiction. }
    destruct (decide (arg = "execute")).
    { apply Hzero. repeat (apply returns_then; intros). by apply returns_ret. }
    destruct (decide (arg = "open")).
    { apply Hzero. repeat (apply returns_then; intros). by apply returns_ret. }
    destruct (decide (arg = "call")) as [->|].
    { destruct rest as [|id cmd]; cbn [lookup list_lookup].
      - apply returns_then. intros _. apply returns_throw.
      - apply returns_then. intros _.
        apply (returns_bind (fun status => child_status env = Some status)).
        + unfold execute. do 2 (apply returns_then; intros).
          apply returns_child_status.
        + intros status Hst. apply returns_then. intros _.
          apply returns_ret. intros _. split; [assumption|]. eauto. }
    destruct (decide (arg = "callext")) as [->|].
    { destruct rest as [|id cmd]; cbn [lookup list_lookup].
      - apply returns_then. intros _. apply returns_throw.
      - apply returns_then. intros _.
        apply (returns_bind (fun status => child_status env = Some status)).
        + unfold callExt. do 2 (apply returns_then; intros).
          apply returns_child_status.
        + intros status Hst. apply returns_then. intros _.
          apply returns_ret. intros _. split; [assumption|]. eauto. }
    destruct (decide (arg = "close")).
    { apply Hzero. repeat (apply returns_then; intros). by apply returns_ret. }
    destruct (decide (arg = "abort")).
    { apply Hzero. repeat (apply returns_then; intros). by apply returns_ret. }
    apply returns_then. intros _. apply returns_throw. }
  unfold processCommand, finally in Hrun.
  destruct (processCommand_body env argv (Transaction_new, w)) as [r s] eqn:E.
  injection Hrun as -> _.
  exact (Hbody _ _ _ E Hn).
Qed.

Lemma nonzero_return_is_child_status_witness :
  child_status (sample_env false true (Some 4)) = Some 4 /\
  exists id cmd,
    ["call"; "3"; "zypper"; "up"] = "call" :: id :: cmd \/
    ["call"; "3"; "zypper"; "up"] = "callext" :: id :: cmd.
Proof.
  apply (nonzero_return_is_child_status (sample_env false true (Some 4))
           ["call"; "3"; "zypper"; "up"] sample_world
           (snd (processCommand (sample_env false true (Some 4))
                   ["call"; "3"; "zypper"; "up"] sample_world)) 4);
    [reflexivity | lia].
Defined.

(** ** Option parsing *)

Lemma getopt_scan_stop (cmd : string) (rest : list string) (optind : Z) :
  is_option cmd = false -> getopt_scan (cmd :: rest) optind = ([], optind).
Proof.
  intros H. cbn [getopt_scan].
  destruct cmd as [|c1 [|c2 body]]; try reflexivity.
  cbn [is_option] in H. apply bool_decide_eq_false in H.
  destruct (decide (c1 = "-"%char)); [contradiction | reflexivity].
Qed.

Lemma getopt_scan_optind (args : list string) (optind : Z) :
  optind <= snd (getopt_scan args optind) <= optind + Z.of_nat (length args).
Proof.
  revert optind. induction args as [|a args IH]; intros optind;
    cbn [getopt_scan length]; [cbn; lia|].
  specialize (IH (optind + 1)).
  destruct a as [|c1 [|c2 body]]; cbn [snd]; try lia.
  destruct (decide (c1 = "-"%char)); cbn [snd]; [|lia].
  destruct (decide (c2 = "-"%char)).
  - destruct body; cbn [snd]; [lia|].
    destruct (getopt_scan args (optind + 1)). cbn [snd] in *. lia.
  - destruct (getopt_scan args (optind + 1)). cbn [snd] in *. lia.
Qed.

(** The three ways the loop of [parseOptions] ends. *)
Lemma parseOptions_loop_result
    (env : Env) (rs : list GetoptRet) (optind : Z) (w : World) :
  (fst (parseOptions_loop env rs optind w) = Ok optind /\
   stdout (snd (parseOptions_loop env rs optind w)) = stdout w) \/
  (fst (parseOptions_loop env rs optind w) = Ok 0 /\
   (stdout (snd (parseOptions_loop env rs optind w))
      = (stdout w ++ [help_text])%list \/
    stdout (snd (parseOptions_loop env rs optind w))
      = (stdout w ++ [VERSION env +:+ LF])%list)) \/
  (fst (parseOptions_loop env rs optind w) = Ok (-1) /\
   stdout (snd (parseOptions_loop env rs optind w))
     = (stdout w ++ [help_text])%list).
Proof.
  revert w. induction rs as [|[c optarg] rs IH]; intros w;
    cbn [parseOptions_loop]; [left; by split|].
  unfold bind, modify, displayHelp, cout, ret, on_world.
  repeat match goal with
         | |- context [decide ?Q] => destruct (decide Q)
         end;
    cbn beta iota; cbn [fst snd stdout add_stdout];
    try match goal with
        | |- context [parseOptions_loop env rs optind ?w0] =>
            specialize (IH w0);
            cbn [stdout set_baseSnapshot set_tulog_level] in IH; exact IH
        end.
  - right; left. split; [reflexivity|]. by left.
  - right; left. split; [reflexivity|]. by right.
  - right; right. by split.
Qed.

(** The other fields of the world are out of reach of the loop. *)
Lemma parseOptions_loop_frame
    (env : Env) (rs : list GetoptRet) (optind : Z) (w : World) :
  snaps (snd (parseOptions_loop env rs optind w)) = snaps w /\
  default_snapshot (snd (parseOptions_loop env rs optind w))
    = default_snapshot w /\
  lockfile_exists (snd (parseOptions_loop env rs optind w))
    = lockfile_exists w /\
  lock_owned (snd (parseOptions_loop env rs optind w)) = lock_owned w /\
  sigtable (snd (parseOptions_loop env rs optind w)) = sigtable w /\
  log (snd (parseOptions_loop env rs optind w)) = log w /\
  trace (snd (parseOptions_loop env rs optind w)) = trace w.
Proof.
  revert w. induction rs as [|[c optarg] rs IH]; intros w;
    cbn [parseOptions_loop]; [by repeat split|].
  unfold bind, modify, displayHelp, cout, ret, on_world.
  repeat match goal with
         | |- context [decide ?Q] => destruct (decide Q)
         end;
    cbn beta iota; cbn [fst snd];
    try match goal with
        | |- context [parseOptions_loop env rs optind ?w0] =>
            destruct (IH w0) as (-> & -> & -> & -> & -> & -> & ->)
        end;
    by repeat split.
Qed.

Lemma parseOptions_frame (env : Env) (argv : list string) (w : World) :
  snaps (snd (parseOptions env argv w)) = snaps w /\
  default_snapshot (snd (parseOptions env argv w)) = default_snapshot w /\
  lockfile_exists (snd (parseOptions env argv w)) = lockfile_exists w /\
  lock_owned (snd (parseOptions env argv w)) = lock_owned w /\
  sigtable (snd (parseOptions env argv w)) = sigtable w /\
  log (snd (parseOptions env argv w)) = log w /\
  trace (snd (parseOptions env argv w)) = trace w.
Proof.
  unfold parseOptions. destruct (getopt_scan _ _) as [rs optind].
  apply parseOptions_loop_frame.
Qed.

(** [parseOptions] never throws, and all it can change is the base
    snapshot, the log level and the standard output: store, default
    snapshot, lock file, signal table, log and trace are as before. *)
Theorem parseOptions_only_sets_options
    (env : Env) (argv : list string) (w : World) :
  (exists r, fst (parseOptions env argv w) = Ok r) /\
  snaps (snd (parseOptions env argv w)) = snaps w /\
  default_snapshot (snd (parseOptions env argv w)) = default_snapshot w /\
  lockfile_exists (snd (parseOptions env argv w)) = lockfile_exists w /\
  lock_owned (snd (parseOptions env argv w)) = lock_owned w /\
  sigtable (snd (parseOptions env argv w)) = sigtable w /\
  log (snd (parseOptions env argv w)) = log w /\
  trace (snd (parseOptions env argv w)) = trace w.
Proof.
  split.
  - unfold parseOptions. destruct (getopt_scan _ _) as [rs optind].
    destruct (parseOptions_loop_result env rs optind w)
      as [[H _]|[[H _]|[H _]]]; eauto.
  - apply parseOptions_frame.
Qed.

(** What [parseOptions] returns, for a command line with at least the
    program name: an index from 1 to [argc], with nothing printed; or 0
    after printing the help text or the version; or -1 after printing the
    help text.  So [&argv[ret]] stays inside the argument array whenever
    the constructor goes on. *)
Theorem parseOptions_result_range
    (env : Env) (argv : list string) (w : World) :
  argv <> [] ->
  (exists r,
     fst (parseOptions env argv w) = Ok r /\
     1 <= r <= Z.of_nat (length argv) /\
     stdout (snd (parseOptions env argv w)) = stdout w) \/
  (fst (parseOptions env argv w) = Ok 0 /\
   (stdout (snd (parseOptions env argv w)) = (stdout w ++ [help_text])%list \/
    stdout (snd (parseOptions env argv w))
      = (stdout w ++ [VERSION env +:+ LF])%list)) \/
  (fst (parseOptions env argv w) = Ok (-1) /\
   stdout (snd (parseOptions env argv w)) = (stdout w ++ [help_text])%list).
Proof.
  intros Hargv. unfold parseOptions.
  pose proof (getopt_scan_optind (drop 1 argv) 1) as Hind.
  destruct (getopt_scan (drop 1 argv) 1) as [rs optind]. cbn [snd] in Hind.
  destruct (parseOptions_loop_result env rs optind w) as [[H1 H2]|[H|H]];
    [left | right; left; exact H | right; right; exact H].
  exists optind. split; [assumption|]. split; [|assumption].
  destruct argv as [|prog args]; [contradiction|].
  cbn [drop length] in *. rewrite drop_0 in Hind. lia.
Qed.

Lemma parseOptions_result_range_witness :
  (exists r,
     fst (parseOptions (sample_env false true None)
            ["tukit"; "-c5"; "--quiet"; "open"] sample_world) = Ok r /\
     1 <= r <= Z.of_nat (length ["tukit"; "-c5"; "--quiet"; "open"]) /\
     stdout (snd (parseOptions (sample_env false true None)
                    ["tukit"; "-c5"; "--quiet"; "open"] sample_world))
       = stdout sample_world) \/
  (fst (parseOptions (sample_env false true None)
          ["tukit"; "-c5"; "--quiet"; "open"] sample_world) = Ok 0 /\
   (stdout (snd (parseOptions (sample_env false true None)
                   ["tukit"; "-c5"; "--quiet"; "open"] sample_world))
      = (stdout sample_world ++ [help_text])%list \/
    stdout (snd (parseOptions (sample_env false true None)
                   ["tukit"; "-c5"; "--quiet"; "open"] sample_world))
      = (stdout sample_world
         ++ [VERSION (sample_env false true None) +:+ LF])%list)) \/
  (fst (parseOptions (sample_env false true None)
          ["tukit"; "-c5"; "--quiet"; "open"] sample_world) = Ok (-1) /\
   stdout (snd (parseOptions (sample_env false true None)
                  ["tukit"; "-c5"; "--quiet"; "open"] sample_world))
     = (stdout sample_world ++ [help_text])%list).
Proof.
  apply (parseOptions_result_range (sample_env false true None)
           ["tukit"; "-c5"; "--quiet"; "open"] sample_world).
  discriminate.
Defined.

Lemma getopt_scan_after_command
    (opts : list string) (cmd : string) (rest rest' : list string) (optind : Z) :
  is_option cmd = false ->
  getopt_scan (opts ++ cmd :: rest) optind
    = getopt_scan (opts ++ cmd :: rest') optind.
Proof.
  intros Hcmd. revert optind.
  induction opts as [|a opts IH]; intros optind; cbn [app].
  - by rewrite !getopt_scan_stop.
  - cbn [getopt_scan]. destruct a as [|c1 [|c2 body]]; try reflexivity.
    destruct (decide (c1 = "-"%char)); [|reflexivity].
    destruct (decide (c2 = "-"%char)).
    + destruct body; [reflexivity|]. by rewrite IH.
    + by rewrite IH.
Qed.

(** The option scan ends at the first argument that is not an option, the
    command: whatever stands after the command, dashes or not, has no
    influence on [parseOptions].  With the command right after the
    program name, [parseOptions] returns 1 and changes nothing. *)
Theorem options_end_at_command
    (env : Env) (prog cmd : string) (opts rest rest' : list string)
    (w : World) :
  is_option cmd = false ->
  parseOptions env (prog :: opts ++ cmd :: rest) w
    = parseOptions env (prog :: opts ++ cmd :: rest') w /\
  parseOptions env (prog :: cmd :: rest) w = (Ok 1, w).
Proof.
  intros Hcmd. unfold parseOptions. cbn [drop]. rewrite ?drop_0. split.
  - by rewrite (getopt_scan_after_command opts cmd rest rest').
  - by rewrite getopt_scan_stop.
Qed.

Lemma options_end_at_command_witness :
  parseOptions (sample_env false true None)
    ("tukit" :: ["-v"] ++ "execute" :: ["ls"; "--help"]) sample_world
    = parseOptions (sample_env false true None)
        ("tukit" :: ["-v"] ++ "execute" :: []) sample_world /\
  parseOptions (sample_env false true None)
    ("tukit" :: "execute" :: ["ls"; "--help"]) sample_world
    = (Ok 1, sample_world).
Proof.
  apply (options_end_at_command (sample_env false true None) "tukit" "execute"
           ["-v"] ["ls"; "--help"] [] sample_world).
  reflexivity.
Defined.

(** The base snapshot option in front of a command.  [-cID] and
    [--continue=ID] set the base snapshot to the id; [-c] and [--continue]
    without an id set it to [default].  An empty id after [--continue=]
    is an argument all the same and gives the empty base snapshot.  In
    every case the command is found at index 2. *)
Theorem continue_option_sets_base
    (env : Env) (prog id cmd : string) (rest : list string) (w : World) :
  is_option cmd = false ->
  parseOptions env (prog :: ("-c" +:+ id) :: cmd :: rest) w
    = (Ok 2, set_baseSnapshot
               (if decide (id = EmptyString) then "default" else id) w) /\
  parseOptions env (prog :: ("--continue=" +:+ id) :: cmd :: rest) w
    = (Ok 2, set_baseSnapshot id w) /\
  parseOptions env (prog :: "--continue" :: cmd :: rest) w
    = (Ok 2, set_baseSnapshot "default" w).
Proof.
  intros Hcmd. unfold parseOptions. cbn [drop]. rewrite ?drop_0.
  pose proof (getopt_scan_stop cmd rest (1 + 1) Hcmd) as Hstop.
  cbn [getopt_scan] in Hstop.
  repeat split.
  - cbn [getopt_scan String.append]. rewrite Hstop.
    destruct id; reflexivity.
  - cbn [getopt_scan String.append]. rewrite Hstop.
    reflexivity.
  - cbn [getopt_scan]. rewrite Hstop.
    reflexivity.
Qed.

Lemma continue_option_sets_base_witness :
  parseOptions (sample_env false true None) ["tukit"; "-c" +:+ "5"; "open"]
    sample_world
    = (Ok 2, set_baseSnapshot
               (if decide ("5" = EmptyString) then "default" else "5")
               sample_world) /\
  parseOptions (sample_env false true None)
    ["tukit"; "--continue=" +:+ "5"; "open"] sample_world
    = (Ok 2, set_baseSnapshot "5" sample_world) /\
  parseOptions (sample_env false true None) ["tukit"; "--continue"; "open"]
    sample_world
    = (Ok 2, set_baseSnapshot "default" sample_world).
Proof.
  apply (continue_option_sets_base (sample_env false true None) "tukit" "5"
           "open" [] sample_world).
  reflexivity.
Defined.

(** The help text promises [-V] for the version, but the option string
    has no [V]: an argument starting with [-V] is an unknown option, which
    prints the help text and returns -1.  Only the long [--version] prints
    the version and returns 0. *)
Theorem short_version_option_is_unknown
    (env : Env) (prog suffix : string) (rest : list string) (w : World) :
  parseOptions env (prog :: ("-V" +:+ suffix) :: rest) w
    = (Ok (-1), add_stdout help_text w) /\
  parseOptions env (prog :: "--version" :: rest) w
    = (Ok 0, add_stdout (VERSION env +:+ LF) w).
Proof.
  unfold parseOptions. cbn [drop]. rewrite ?drop_0. split.
  - cbn [getopt_scan String.append].
    destruct (decide ("-"%char = "-"%char)); [|congruence].
    destruct (decide ("V"%char = "-"%char)); [discriminate|].
    destruct (getopt_scan rest (1 + 1)) as [rs optind].
    reflexivity.
  - cbn [getopt_scan].
    destruct (decide ("-"%char = "-"%char)); [|congruence].
    destruct (getopt_scan rest (1 + 1)) as [rs optind].
    reflexivity.
Qed.

(** ** More about the constructor *)

(** [processCommand] is confined to the transaction: for every command
    line it leaves the signal table and the lock file as they are, and
    every event it adds to the trace is a call into the transaction or
    one of the transaction's own operations. *)
Theorem processCommand_is_confined
    (env : Env) (argv : list string) (w : World) :
  sigtable (snd (processCommand env argv w)) = sigtable w /\
  lockfile_exists (snd (processCommand env argv w)) = lockfile_exists w /\
  lock_owned (snd (processCommand env argv w)) = lock_owned w /\
  Forall transaction_event (events_since w (snd (processCommand env argv w))).
Proof.
  pose proof (quiet_processCommand env argv w) as Hq.
  pose proof (quiet_events _ _ _ Hq) as Hev.
  destruct Hq as (Hs & Hl & Ho & _). by repeat split.
Qed.

Lemma lock_released_on_exit_witness :
  exists evs,
    events_since
      (snd (startup (sample_env false true (Some 1)) ["tukit"; "execute"; "false"]
              sample_world))
      (snd (TUKit (sample_env false true (Some 1)) ["tukit"; "execute"; "false"]
              sample_world))
      = ([EvOpenLockfile true; EvLockf true] ++ evs
         ++ [EvCloseLockfile; EvRemoveLockfile])%list /\
    Forall transaction_event evs /\
    lockfile_exists
      (snd (TUKit (sample_env false true (Some 1)) ["tukit"; "execute"; "false"]
              sample_world)) = false /\
    lock_owned
      (snd (TUKit (sample_env false true (Some 1)) ["tukit"; "execute"; "false"]
              sample_world)) = false.
Proof.
  apply (lock_released_on_exit (sample_env false true (Some 1))
           ["tukit"; "execute"; "false"] sample_world _ 1);
    [reflexivity | lia | reflexivity | reflexivity].
Defined.

(** When the lock file cannot be opened the constructor throws the
    could-not-create error right after the failed [open]: no [lockf] is
    attempted, no command is dispatched, and nothing is closed or
    removed. *)
Theorem lockfile_open_failure
    (env : Env) (argv : list string) (w w1 : World) (r : Z) :
  startup env argv w = (Ok r, w1) ->
  0 < r ->
  open_ok env = false ->
  exists w',
    TUKit env argv w = (Throw (cannot_create env), w') /\
    events_since w1 w' = [EvOpenLockfile false] /\
    lockfile_exists w' = lockfile_exists w /\
    lock_owned w' = lock_owned w /\
    snaps w' = snaps w1.
Proof.
  intros Hstart Hr Hopen.
  pose proof (startup_effect env argv w) as (_ & _ & Hl & Ho & _).
  rewrite TUKit_startup, Hstart in *. cbn [snd] in Hl, Ho.
  destruct (decide (r <= 0)); [lia|].
  rewrite Lock_ctor_cases, Hopen.
  eexists. split; [reflexivity|]. split; [trace_eq|].
  world_fields. by repeat split.
Qed.

Lemma lockfile_open_failure_witness :
  exists w',
    TUKit (mkEnv "/var/run/tukit.lock" "3.1.0" false false "Permission denied"
             (Some "7") sample_mount_path true (Some 0))
      ["tukit"; "open"] sample_world
      = (Throw (runtime_error
           "Could not create lock file '/var/run/tukit.lock': Permission denied"),
         w') /\
    events_since
      (snd (startup (mkEnv "/var/run/tukit.lock" "3.1.0" false false
                       "Permission denied" (Some "7") sample_mount_path true
                       (Some 0))
              ["tukit"; "open"] sample_world)) w' = [EvOpenLockfile false] /\
    lockfile_exists w' = lockfile_exists sample_world /\
    lock_owned w' = lock_owned sample_world /\
    snaps w' =
      snaps (snd (startup (mkEnv "/var/run/tukit.lock" "3.1.0" false false
                             "Permission denied" (Some "7") sample_mount_path
                             true (Some 0))
                    ["tukit"; "open"] sample_world)).
Proof.
  apply (lockfile_open_failure
           (mkEnv "/var/run/tukit.lock" "3.1.0" false false "Permission denied"
              (Some "7") sample_mount_path true (Some 0))
           ["tukit"; "open"] sample_world _ 1);
    [reflexivity | lia | reflexivity].
Defined.

(** When option parsing returns 0 or less (help, version, unknown
    option) the constructor throws that number at once.  The lock is not
    even tried, so such a run goes through while another instance holds
    the lock, and the only events are the four handler installations. *)
Theorem options_can_end_the_run
    (env : Env) (argv : list string) (w w1 : World) (r : Z) :
  startup env argv w = (Ok r, w1) ->
  r <= 0 ->
  TUKit env argv w = (Throw (thrown_int r), w1) /\
  events_since w w1 =
    [EvSignal SIGINT; EvSignal SIGHUP; EvSignal SIGQUIT; EvSignal SIGTERM] /\
  lockfile_exists w1 = lockfile_exists w /\
  lock_owned w1 = lock_owned w /\
  snaps w1 = snaps w.
Proof.
  intros Hstart Hr.
  pose proof (startup_effect env argv w) as (Ht & _ & Hl & Ho & _).
  assert (Hsnaps : snaps (snd (startup env argv w)) = snaps w).
  { unfold startup, bind, signal, modify.
    match goal with
    | |- context [parseOptions env argv ?w0] =>
        destruct (parseOptions_frame env argv w0) as [-> _]
    end.
    reflexivity. }
  rewrite TUKit_startup, Hstart in *. cbn [snd] in *.
  destruct (decide (r <= 0)); [|lia].
  repeat split; try assumption.
  by apply events_since_app.
Qed.

Lemma options_can_end_the_run_witness :
  TUKit (sample_env true true None) ["tukit"; "--help"; "abort"; "3"]
    sample_world
    = (Throw (thrown_int 0),
       snd (startup (sample_env true true None)
              ["tukit"; "--help"; "abort"; "3"] sample_world)) /\
  events_since sample_world
    (snd (startup (sample_env true true None)
            ["tukit"; "--help"; "abort"; "3"] sample_world)) =
    [EvSignal SIGINT; EvSignal SIGHUP; EvSignal SIGQUIT; EvSignal SIGTERM] /\
  lockfile_exists
    (snd (startup (sample_env true true None)
            ["tukit"; "--help"; "abort"; "3"] sample_world))
    = lockfile_exists sample_world /\
  lock_owned
    (snd (startup (sample_env true true None)
            ["tukit"; "--help"; "abort"; "3"] sample_world))
    = lock_owned sample_world /\
  snaps
    (snd (startup (sample_env true true None)
            ["tukit"; "--help"; "abort"; "3"] sample_world))
    = snaps sample_world.
Proof.
  apply (options_can_end_the_run (sample_env true true None)
           ["tukit"; "--help"; "abort"; "3"] sample_world _ 0);
    [reflexivity | lia].
Defined.

(** The signal table after the constructor, however it ends: the four
    handlers in front of whatever was there. *)
Lemma TUKit_sigtable (env : Env) (argv : list string) (w : World) :
  sigtable (snd (TUKit env argv w)) =
    (SIGTERM, Handler_interrupt) :: (SIGQUIT, Handler_interrupt) ::
    (SIGHUP, Handler_interrupt) :: (SIGINT, Handler_interrupt) :: sigtable w.
Proof.
  pose proof (startup_effect env argv w) as (_ & Hs & _ & _ & r0 & Hr0).
  rewrite TUKit_startup.
  destruct (startup env argv w) as [res w1]. cbn [fst snd] in *. subst res.
  destruct (decide (r0 <= 0)); [exact Hs|].
  rewrite Lock_ctor_cases.
  destruct (open_ok env); [destruct (lock_held_by_other env)|];
    cbn [fst snd]; try exact Hs.
  unfold finally.
  pose proof (quiet_locked_part env argv r0 (after_acquire w1))
    as (Hs2 & _).
  destruct (locked_part env argv r0 (after_acquire w1)) as [res w2].
  cbn [snd] in *. unfold Lock_dtor. world_fields. by rewrite Hs2.
Qed.

(** The constructor installs handlers for the four signals only: what
    any other signal does to the process, here SIGPIPE, is after the run
    what it was before.  A process that SIGPIPE would have terminated is
    still terminated by it. *)
Theorem other_signals_keep_their_disposition
    (env : Env) (argv : list string) (w : World) :
  disposition (snd (TUKit env argv w)) SIGPIPE = disposition w SIGPIPE /\
  (deliver SIGPIPE w = Terminated ->
   deliver SIGPIPE (snd (TUKit env argv w)) = Terminated).
Proof.
  assert (Hd : disposition (snd (TUKit env argv w)) SIGPIPE
               = disposition w SIGPIPE).
  { unfold disposition. rewrite TUKit_sigtable.
    cbn [list_find fst signum].
    repeat (destruct (decide _) as [E|_]; [discriminate E|]).
    destruct (list_find _ (sigtable w)) as [[i [s d]]|]; reflexivity. }
  split; [exact Hd|].
  unfold deliver. rewrite Hd.
  by destruct (disposition w SIGPIPE).
Qed.

Lemma parseOptions_no_options
    (env : Env) (prog cmd : string) (rest : list string) (w : World) :
  is_option cmd = false -> parseOptions env (prog :: cmd :: rest) w = (Ok 1, w).
Proof.
  intros Hcmd. unfold parseOptions. cbn [drop]. rewrite ?drop_0.
  by rewrite getopt_scan_stop.
Qed.

(** A whole run of [tukit call <id> <cmd...>] with the lock free: the
    handlers are installed, the lock is taken, the command runs in the
    transaction, which is kept, and the lock file is closed and removed.
    An exit status of 0 lets the constructor return; any other status
    leaves it as a thrown [int], after the same cleanup. *)
Theorem call_run_end_to_end
    (env : Env) (prog id : string) (cmd : list string) (w : World) (status : Z) :
  id <> EmptyString ->
  snaps w !! id = Some InProgress ->
  child_status env = Some status ->
  open_ok env = true ->
  lock_held_by_other env = false ->
  exists w',
    TUKit env (prog :: "call" :: id :: cmd) w
      = (if decide (status = 0) then Ok tt else Throw (thrown_int status), w') /\
    events_since w w' =
      [ EvSignal SIGINT; EvSignal SIGHUP; EvSignal SIGQUIT; EvSignal SIGTERM;
        EvOpenLockfile true; EvLockf true;
        CallResume id; StoreMountPathOf id true; CallExecute cmd;
        RunChroot (mount_path env id) (program_of cmd); CallKeep; Dispose;
        EvCloseLockfile; EvRemoveLockfile ] /\
    snaps w' = snaps w /\
    default_snapshot w' = default_snapshot w /\
    lockfile_exists w' = false /\
    lock_owned w' = false.
Proof.
  intros Hid Hopen Hchild Hfile Hfree.
  rewrite TUKit_startup. unfold startup, bind, signal, modify.
  rewrite parseOptions_no_options by reflexivity.
  destruct (decide (1 <= 0)); [lia|].
  rewrite Lock_ctor_cases, Hfile, Hfree.
  unfold finally, locked_part, bind, modify.
  change (Z.to_nat 1) with 1%nat. cbn [drop].
  unfold processCommand at 1. rewrite dispatch_call.
  run_engine. world_fields.
  destruct (decide (id = EmptyString)) as [E|_]; [contradiction|].
  run_engine. unfold after_acquire, after_open. world_fields.
  rewrite Hopen, Hchild. run_engine. world_fields.
  destruct (decide (status <> 0)) as [Hne|Heq];
    destruct (decide (status = 0)) as [Hz|Hnz]; try contradiction.
  - eexists. split; [reflexivity|]. unfold Lock_dtor. world_fields.
    split; [trace_eq|]. by repeat split.
  - eexists. split; [reflexivity|]. unfold Lock_dtor. world_fields.
    split; [trace_eq|]. by repeat split.
Qed.

Lemma call_run_end_to_end_witness :
  exists w',
    TUKit (sample_env false true (Some 4)) ("tukit" :: "call" :: "3" :: ["false"])
      sample_world
      = (if decide (4 = 0) then Ok tt else Throw (thrown_int 4), w') /\
    events_since sample_world w' =
      [ EvSignal SIGINT; EvSignal SIGHUP; EvSignal SIGQUIT; EvSignal SIGTERM;
        EvOpenLockfile true; EvLockf true;
        CallResume "3"; StoreMountPathOf "3" true; CallExecute ["false"];
        RunChroot "/.snapshots/3/snapshot" (Command ["false"]); CallKeep;
        Dispose; EvCloseLockfile; EvRemoveLockfile ] /\
    snaps w' = snaps sample_world /\
    default_snapshot w' = default_snapshot sample_world /\
    lockfile_exists w' = false /\
    lock_owned w' = false.
Proof.
  apply (call_run_end_to_end (sample_env false true (Some 4)) "tukit" "3"
           ["false"] sample_world 4);
    [discriminate | reflexivity..].
Defined.
